(** * DoubleExponentialDiskPotential: a shallow embedding

    Source: [galpy/potential/DoubleExponentialDiskPotential.py].

    The Python class evaluates the potential of the density
    [rho(R,z) = exp(-R/hr - |z|/hz)], its forces and second derivatives,
    either by Ogata's double-exponential Bessel quadrature ([self._de]) or by
    the older Gauss-Legendre quadrature between Bessel zeros.

    Numbers.  A numpy/Python double is modelled by [float64]: an exact real
    or one of the IEEE special values +inf, -inf, NaN.  Rounding, overflow
    and the sign of zero are abstracted away (finite arithmetic is exact real
    arithmetic); what is kept is the behaviour the code relies on: [0/0] and
    [inf*0] are NaN, [x/0] is an infinity under numpy and a
    [ZeroDivisionError] between builtin floats, NaN is absorbing in
    [numpy.sum] and skipped by [numpy.nansum], every comparison with NaN is
    false.

    Values.  [pyobj] distinguishes a builtin float, a numpy scalar and a
    one-dimensional ndarray, with numpy's promotion and broadcasting rules
    between them; calls return [result], a value or a raised exception.

    External code.  [scipy.special], [numpy.polynomial.legendre.leggauss] and
    [KeplerPotential] are not part of the file; the development is
    parametric in them, and what a statement needs of them is a hypothesis
    ([bessel_contract], [kepler_parity]). *)

From Stdlib Require Import Reals Machin Lra Lia List Bool Arith ZArith Sorted.
Import ListNotations.

Local Open Scope R_scope.

(* ================================================================== *)
(** ** IEEE doubles over exact reals *)

Module F64.

Inductive float64 : Type :=
| Fin (r : R)
| PInf
| NInf
| NaN.

Definition sgn (r : R) : comparison :=
  match total_order_T r 0 with
  | inleft (left _) => Lt
  | inleft (right _) => Eq
  | inright _ => Gt
  end.

Definition is_nan (x : float64) : bool :=
  match x with NaN => true | _ => false end.

Definition is_finite (x : float64) : bool :=
  match x with Fin _ => true | _ => false end.

Definition is_zero (x : float64) : bool :=
  match x with
  | Fin r => if Req_dec_T r 0 then true else false
  | _ => false
  end.

Definition fneg (x : float64) : float64 :=
  match x with
  | Fin r => Fin (- r)
  | PInf => NInf
  | NInf => PInf
  | NaN => NaN
  end.

Definition fabs (x : float64) : float64 :=
  match x with
  | Fin r => Fin (Rabs r)
  | PInf | NInf => PInf
  | NaN => NaN
  end.

(** [inf_times i r] is the product of the infinity [i] by the finite [r]. *)
Definition inf_times (i : float64) (r : R) : float64 :=
  match sgn r with
  | Gt => i
  | Lt => fneg i
  | Eq => NaN
  end.

Definition fadd (a b : float64) : float64 :=
  match a, b with
  | NaN, _ | _, NaN => NaN
  | Fin x, Fin y => Fin (x + y)
  | PInf, NInf | NInf, PInf => NaN
  | PInf, _ | _, PInf => PInf
  | NInf, _ | _, NInf => NInf
  end.

Definition fsub (a b : float64) : float64 := fadd a (fneg b).

Definition fmul (a b : float64) : float64 :=
  match a, b with
  | NaN, _ | _, NaN => NaN
  | Fin x, Fin y => Fin (x * y)
  | Fin x, i | i, Fin x => inf_times i x
  | PInf, PInf | NInf, NInf => PInf
  | PInf, NInf | NInf, PInf => NInf
  end.

(** numpy's true division: a finite quotient, [0/0 = nan], [x/0 = +-inf]. *)
Definition fdiv (a b : float64) : float64 :=
  match a, b with
  | NaN, _ | _, NaN => NaN
  | Fin x, Fin y =>
      if Req_dec_T y 0
      then match sgn x with Eq => NaN | Gt => PInf | Lt => NInf end
      else Fin (x / y)
  | Fin _, _ => Fin 0
  | i, Fin y => match sgn y with Lt => fneg i | _ => i end
  | _, _ => NaN
  end.

(** Is the real [y] an integer, and which one. *)
Definition as_integer (y : R) : option Z :=
  let n := Int_part y in
  if Req_dec_T (IZR n) y then Some n else None.

(** C99 [pow], the function behind [**] on doubles. *)
Definition fpow (x y : float64) : float64 :=
  match y with
  | NaN => match x with
           | Fin r => if Req_dec_T r 1 then Fin 1 else NaN
           | _ => NaN
           end
  | PInf | NInf =>
      match x with
      | NaN => NaN
      | PInf | NInf => match y with PInf => PInf | _ => Fin 0 end
      | Fin r =>
          match total_order_T (Rabs r) 1 with
          | inleft (left _) => match y with PInf => Fin 0 | _ => PInf end
          | inleft (right _) => Fin 1
          | inright _ => match y with PInf => PInf | _ => Fin 0 end
          end
      end
  | Fin e =>
      match sgn e with
      | Eq => Fin 1
      | se =>
          match x with
          | NaN => NaN
          | PInf => match se with Gt => PInf | _ => Fin 0 end
          | NInf =>
              match se with
              | Gt => match as_integer e with
                      | Some n => if Z.odd n then NInf else PInf
                      | None => PInf
                      end
              | _ => Fin 0
              end
          | Fin r =>
              match sgn r with
              | Gt => match as_integer e with
                      | Some n => Fin (powerRZ r n)
                      | None => Fin (Rpower r e)
                      end
              | Eq => match se with Gt => Fin 0 | _ => PInf end
              | Lt => match as_integer e with
                      | Some n => Fin (powerRZ r n)
                      | None => NaN
                      end
              end
          end
      end
  end.

Definition fexp (x : float64) : float64 :=
  match x with
  | Fin r => Fin (Rtrigo_def.exp r)
  | PInf => PInf
  | NInf => Fin 0
  | NaN => NaN
  end.

Definition fsinh (x : float64) : float64 :=
  match x with
  | Fin r => Fin (Rtrigo_def.sinh r)
  | other => other
  end.

Definition fcosh (x : float64) : float64 :=
  match x with
  | Fin r => Fin (Rtrigo_def.cosh r)
  | PInf | NInf => PInf
  | NaN => NaN
  end.

Definition ftanh (x : float64) : float64 :=
  match x with
  | Fin r => Fin (Rtrigo_def.tanh r)
  | PInf => Fin 1
  | NInf => Fin (-1)
  | NaN => NaN
  end.

(** Comparisons; every comparison with NaN is false. *)
Definition fltb (a b : float64) : bool :=
  match a, b with
  | NaN, _ | _, NaN => false
  | Fin x, Fin y => if Rlt_dec x y then true else false
  | _, NInf => false
  | NInf, _ => true
  | PInf, _ => false
  | _, PInf => true
  end.

Definition fleb (a b : float64) : bool :=
  match a, b with
  | NaN, _ | _, NaN => false
  | Fin x, Fin y => if Rle_dec x y then true else false
  | NInf, _ => true
  | _, PInf => true
  | _, NInf => false
  | PInf, _ => false
  end.

Definition fgtb (a b : float64) : bool := fltb b a.

(** [numpy.sum]: plain accumulation, so one NaN makes the total NaN. *)
Definition fsum (l : list float64) : float64 := fold_left fadd l (Fin 0).

(** [numpy.nansum]: NaN entries count as zero; infinities are kept. *)
Definition nan_to_zero (x : float64) : float64 :=
  match x with NaN => Fin 0 | other => other end.

Definition fnansum (l : list float64) : float64 := fsum (map nan_to_zero l).

End F64.
Export F64.

(* ================================================================== *)
(** ** Python values, exceptions and the numpy operators *)

Module Py.

Inductive exn : Type :=
| ZeroDivisionError
| ValueError
| IndexError
| AttributeError
| NotModelled.

Inductive result (A : Type) : Type :=
| Ok (a : A)
| Raise (e : exn).

Arguments Ok {A} a.
Arguments Raise {A} e.

Definition bind {A B : Type} (r : result A) (k : A -> result B) : result B :=
  match r with
  | Ok a => k a
  | Raise e => Raise e
  end.

Notation "x <- e1 ;; e2" := (bind e1 (fun x => e2))
  (at level 61, e1 at next level, right associativity).

Fixpoint mapM {A B : Type} (f : A -> result B) (l : list A) : result (list B) :=
  match l with
  | [] => Ok []
  | a :: l' => b <- f a ;; bs <- mapM f l' ;; Ok (b :: bs)
  end.

(** A builtin float, a numpy scalar ([numpy.float64]) or a one-dimensional
    [numpy.ndarray] of doubles. *)
Inductive pyobj : Type :=
| PyFloat (x : float64)
| NpFloat (x : float64)
| NdArray (l : list float64).

(** An expression: evaluates to an object or raises. *)
Definition E : Type := result pyobj.

Definition zipWith (f : float64 -> float64 -> float64)
  (a b : list float64) : list float64 :=
  map (fun p => f (fst p) (snd p)) (combine a b).

(** numpy broadcasting of two one-dimensional arrays. *)
Definition broadcast (f : float64 -> float64 -> float64)
  (a b : list float64) : result (list float64) :=
  if (length a =? length b)%nat then Ok (zipWith f a b)
  else if (length a =? 1)%nat then Ok (map (f (hd NaN a)) b)
  else if (length b =? 1)%nat then Ok (map (fun x => f x (hd NaN b)) a)
  else Raise ValueError.

(** A binary operator: [pyf] between two builtin floats (it may raise),
    the numpy ufunc [npf] as soon as a numpy operand is involved. *)
Definition binop (pyf : float64 -> float64 -> result float64)
  (npf : float64 -> float64 -> float64) (a b : pyobj) : E :=
  match a, b with
  | PyFloat x, PyFloat y => v <- pyf x y ;; Ok (PyFloat v)
  | PyFloat x, NpFloat y | NpFloat x, PyFloat y | NpFloat x, NpFloat y =>
      Ok (NpFloat (npf x y))
  | PyFloat x, NdArray l | NpFloat x, NdArray l =>
      Ok (NdArray (map (npf x) l))
  | NdArray l, PyFloat y | NdArray l, NpFloat y =>
      Ok (NdArray (map (fun x => npf x y) l))
  | NdArray l1, NdArray l2 => l <- broadcast npf l1 l2 ;; Ok (NdArray l)
  end.

(** Builtin float division and power raise where numpy returns inf. *)
Definition float_truediv (x y : float64) : result float64 :=
  if is_zero y then Raise ZeroDivisionError else Ok (fdiv x y).

Definition float_pow (x y : float64) : result float64 :=
  match x, y with
  | Fin r, Fin e =>
      match sgn r, sgn e with
      | Eq, Lt => Raise ZeroDivisionError
      | Lt, _ => match as_integer e with
                 | Some _ => Ok (fpow x y)
                 | None => Raise NotModelled (* a complex number *)
                 end
      | _, _ => Ok (fpow x y)
      end
  | _, _ => Ok (fpow x y)
  end.

Definition total (f : float64 -> float64 -> float64)
  (x y : float64) : result float64 := Ok (f x y).

Definition lift2 (op : pyobj -> pyobj -> E) (ea eb : E) : E :=
  a <- ea ;; b <- eb ;; op a b.

Definition add_ : E -> E -> E := lift2 (binop (total fadd) fadd).
Definition sub_ : E -> E -> E := lift2 (binop (total fsub) fsub).
Definition mul_ : E -> E -> E := lift2 (binop (total fmul) fmul).
Definition truediv_ : E -> E -> E := lift2 (binop float_truediv fdiv).
Definition pow_ : E -> E -> E := lift2 (binop float_pow fpow).

Definition neg_ (ea : E) : E :=
  a <- ea ;;
  Ok match a with
     | PyFloat x => PyFloat (fneg x)
     | NpFloat x => NpFloat (fneg x)
     | NdArray l => NdArray (map fneg l)
     end.

(** A numpy ufunc of one argument: a numpy scalar from a scalar, an array
    from an array. *)
Definition ufunc (f : float64 -> float64) (ea : E) : E :=
  a <- ea ;;
  Ok match a with
     | PyFloat x | NpFloat x => NpFloat (f x)
     | NdArray l => NdArray (map f l)
     end.

(** [numpy.sum] and [numpy.nansum] without [axis]. *)
Definition reduce (f : list float64 -> float64) (ea : E) : E :=
  a <- ea ;;
  Ok match a with
     | PyFloat x | NpFloat x => NpFloat (f [x])
     | NdArray l => NpFloat (f l)
     end.

Definition numpy_sum : E -> E := reduce fsum.
Definition numpy_nansum : E -> E := reduce fnansum.
Definition numpy_exp : E -> E := ufunc fexp.
Definition numpy_fabs : E -> E := ufunc fabs.
Definition numpy_sinh : E -> E := ufunc fsinh.
Definition numpy_cosh : E -> E := ufunc fcosh.
Definition numpy_tanh : E -> E := ufunc ftanh.

(** A float literal or a builtin-float attribute; an ndarray attribute. *)
Definition float_ (x : float64) : E := Ok (PyFloat x).
Definition lit (r : R) : E := Ok (PyFloat (Fin r)).
Definition arr (l : list float64) : E := Ok (NdArray l).
Definition numpy_pi : E := lit PI.

(** [a[i]] on an ndarray. *)
Definition getitem (l : list float64) (i : nat) : E :=
  match nth_error l i with
  | Some x => Ok (NpFloat x)
  | None => Raise IndexError
  end.

(** The truth value of a comparison [a ? b] used as an [if] condition:
    defined for scalars and one-element arrays, false with a warning for an
    empty array, [ValueError] for a longer array. *)
Definition compare_ (cmp : float64 -> float64 -> bool) (a b : pyobj)
  : result bool :=
  match a, b with
  | (PyFloat x | NpFloat x), (PyFloat y | NpFloat y) => Ok (cmp x y)
  | NdArray l, (PyFloat y | NpFloat y) =>
      match l with
      | [] => Ok false
      | [x] => Ok (cmp x y)
      | _ => Raise ValueError
      end
  | (PyFloat x | NpFloat x), NdArray l =>
      match l with
      | [] => Ok false
      | [y] => Ok (cmp x y)
      | _ => Raise ValueError
      end
  | NdArray l1, NdArray l2 =>
      l <- broadcast (fun x y => if cmp x y then Fin 1 else Fin 0) l1 l2 ;;
      match l with
      | [] => Ok false
      | [b] => Ok (negb (is_zero b))
      | _ => Raise ValueError
      end
  end.

Definition as_float (e : E) : result float64 :=
  a <- e ;;
  match a with
  | PyFloat x | NpFloat x => Ok x
  | NdArray _ => Raise NotModelled
  end.

Definition as_array (e : E) : result (list float64) :=
  a <- e ;;
  match a with
  | PyFloat x | NpFloat x => Raise NotModelled
  | NdArray l => Ok l
  end.

Declare Scope py_scope.
Delimit Scope py_scope with py.
Notation "a + b" := (add_ a b) : py_scope.
Notation "a - b" := (sub_ a b) : py_scope.
Notation "a * b" := (mul_ a b) : py_scope.
Notation "a / b" := (truediv_ a b) : py_scope.
Notation "- a" := (neg_ a) : py_scope.
Notation "a ** b" := (pow_ a b)
  (at level 30, right associativity) : py_scope.
Notation "# r" := (lit r) (at level 9, r at level 9, format "# r").

End Py.
Export Py.

(* ================================================================== *)
(** ** The external collaborators *)

(** The functions of [scipy.special] the class calls. *)
Record scipy_special : Type := {
  jn_zeros : nat -> nat -> list float64;
  j0 : float64 -> float64;
  j1 : float64 -> float64;
  jv : nat -> float64 -> float64;
  jn : nat -> float64 -> float64
}.

(** The point-mass potential used at large radii: what the class calls on
    [self._kp]. *)
Record KeplerPotential : Type := {
  __call__ : pyobj -> pyobj -> E;
  Rforce : pyobj -> pyobj -> E;
  zforce : pyobj -> pyobj -> E;
  R2deriv : pyobj -> pyobj -> E;
  z2deriv : pyobj -> pyobj -> E;
  Rzderiv : pyobj -> pyobj -> E
}.

(* ================================================================== *)
(** ** The class *)

(** The attributes [__init__] sets and the evaluation methods read.
    ([hasC], [_maxiter], [_tol] and [_zforceNotSetUp] are never read in the
    file and are left out; the amplitude and the unit system belong to the
    base class [Potential].) *)
Record DoubleExponentialDiskPotential : Type := {
  _kmaxFac : float64;
  _glorder : nat;
  _hr : float64;
  _scale : float64;
  _hz : float64;
  _alpha : float64;
  _beta : float64;
  _gamma : float64;
  _glx : list float64;
  _glw : list float64;
  _nzeros : nat;
  _j0zeros : list float64;
  _dj0zeros : list float64;
  _j1zeros : list float64;
  _dj1zeros : list float64;
  _j2zeros : list float64;
  _dj2zeros : list float64;
  _de : bool;
  _de_h : float64;
  _de_n : nat;
  _de_j0zeros : list float64;
  _de_j1zeros : list float64;
  _de_j0_xs : list float64;
  _de_j0_weights : list float64;
  _de_j1_xs : list float64;
  _de_j1_weights : list float64;
  _kp : option KeplerPotential
}.

Definition _de_psi (t : E) : E :=
  (t * numpy_tanh (numpy_pi / #2 * numpy_sinh t))%py.

Definition _de_psiprime (t : E) : E :=
  ((numpy_sinh (numpy_pi * numpy_sinh t) + numpy_pi * t * numpy_cosh t)
   / (numpy_cosh (numpy_pi * numpy_sinh t) + #1))%py.

(** [numpy.roll(a,1)]. *)
Definition roll1 (l : list float64) : list float64 :=
  match rev l with
  | [] => []
  | x :: _ => x :: removelast l
  end.

(** [a = numpy.zeros(n+1); a[1:n+1] = z]. *)
Definition zeros_then (n : nat) (z : list float64) : result (list float64) :=
  if (length z =? n)%nat then Ok (Fin 0 :: z)
  else if (length z =? 1)%nat then Ok (Fin 0 :: repeat (hd NaN z) n)
  else Raise ValueError.

(** [d = j - numpy.roll(j,1); d[0] = j[0]]. *)
Definition differences (j : list float64) : result (list float64) :=
  d <- as_array (arr j - arr (roll1 j))%py ;;
  j_0 <- as_float (getitem j 0) ;;
  match d with
  | [] => Raise IndexError
  | _ :: d' => Ok (j_0 :: d')
  end.

(** [numpy.argmin]: the first NaN if there is one, else the first minimum. *)
Fixpoint argmin_from (l : list float64) (i best : nat) (v : float64) : nat :=
  match l with
  | [] => best
  | x :: l' =>
      if is_nan v then best
      else if is_nan x || fltb x v then argmin_from l' (S i) i x
      else argmin_from l' (S i) best v
  end.

Definition numpy_argmin (e : E) : result nat :=
  l <- as_array e ;;
  match l with
  | [] => Raise ValueError
  | x :: l' => Ok (argmin_from l' 1 0 x)
  end.

(** [numpy.array([row(ii) for ii in range(n)]).flatten()]. *)
Definition array_flatten (n : nat) (row : nat -> E) : E :=
  rows <- mapM (fun ii => as_array (row ii)) (seq 0 n) ;;
  Ok (NdArray (concat rows)).

(** [a[mask]] and [a[mask] = v] with a boolean mask. *)
Fixpoint select (mask : list bool) (l : list float64) : list float64 :=
  match mask, l with
  | b :: mask', x :: l' => if b then x :: select mask' l' else select mask' l'
  | _, _ => []
  end.

Definition getmask (l : list float64) (mask : list bool) : E :=
  if (length mask =? length l)%nat then Ok (NdArray (select mask l))
  else Raise IndexError.

Fixpoint scatter (mask : list bool) (l v : list float64) : list float64 :=
  match mask, l with
  | b :: mask', x :: l' =>
      if b then
        match v with
        | y :: v' => y :: scatter mask' l' v'
        | [] => x :: scatter mask' l' []
        end
      else x :: scatter mask' l' v
  | _, _ => l
  end.

Definition count_true (mask : list bool) : nat := length (filter (fun b => b) mask).

Definition setmask (l : list float64) (mask : list bool) (v : pyobj)
  : result (list float64) :=
  if negb (length mask =? length l)%nat then Raise IndexError
  else match v with
       | PyFloat y | NpFloat y => Ok (scatter mask l (repeat y (length l)))
       | NdArray ys =>
           if (length ys =? count_true mask)%nat then Ok (scatter mask l ys)
           else if (length ys =? 1)%nat
                then Ok (scatter mask l (repeat (hd NaN ys) (length l)))
                else Raise ValueError
       end.

(** [a[i] = v]. *)
Fixpoint setitem (l : list float64) (i : nat) (v : float64)
  : result (list float64) :=
  match l, i with
  | [], _ => Raise IndexError
  | _ :: l', O => Ok (v :: l')
  | x :: l', S i' => r <- setitem l' i' v ;; Ok (x :: r)
  end.

(** A [for] loop over indices carrying the array being filled. *)
Fixpoint for_ (idx : list nat) (body : nat -> list float64 -> result (list float64))
  (out : list float64) : result (list float64) :=
  match idx with
  | [] => Ok out
  | jj :: idx' => out' <- body jj out ;; for_ idx' body out'
  end.

(** [z*numpy.ones_like(R)] and [numpy.ones_like(R)*z] for a scalar [z]. *)
Definition ones_like (R : list float64) : list float64 := map (fun _ => Fin 1) R.

(** The pairing of two flattened coordinate arrays that [R[:,numpy.newaxis]]
    and [z[:,numpy.newaxis]] induce: one row per query. *)
Definition broadcast_rows (R z : list float64)
  : result (list (float64 * float64)) :=
  if (length R =? length z)%nat then Ok (combine R z)
  else if (length R =? 1)%nat then Ok (map (fun zz => (hd NaN R, zz)) z)
  else if (length z =? 1)%nat then Ok (map (fun rr => (rr, hd NaN z)) R)
  else Raise ValueError.

(** [numpy.reshape(out,outShape)] for a one-dimensional [outShape]. *)
Definition numpy_reshape (out : list float64) (outShape : nat) : E :=
  if (length out =? outShape)%nat then Ok (NdArray out) else Raise ValueError.

Section Class.

Variable special : scipy_special.
Variable leggauss : nat -> list float64 * list float64.
Variable Kepler : float64 -> KeplerPotential.
(** The content of a fresh [numpy.empty] array. *)
Variable uninitialised : float64.

Definition special_j0 : E -> E := ufunc (j0 special).
Definition special_j1 : E -> E := ufunc (j1 special).
Definition special_jv (v : nat) : E -> E := ufunc (jv special v).
Definition special_jn (n : nat) : E -> E := ufunc (jn special n).

(** [__init__(self,hr,hz,kmaxFac,glorder,de,de_h,de_n)], with
    [normalize=False]. *)
Definition __init__ (hr hz kmaxFac : float64) (glorder : nat)
  (de : bool) (de_h : float64) (de_n : nat)
  : result DoubleExponentialDiskPotential :=
  alpha <- as_float (#1 / float_ hr)%py ;;
  beta <- as_float (#1 / float_ hz)%py ;;
  gamma <- as_float (float_ alpha / float_ beta)%py ;;
  let (glx, glw) := leggauss glorder in
  let nzeros := 100%nat in
  j0zeros <- zeros_then nzeros (jn_zeros special 0 nzeros) ;;
  dj0zeros <- differences j0zeros ;;
  j1zeros <- zeros_then nzeros (jn_zeros special 1 nzeros) ;;
  dj1zeros <- differences j1zeros ;;
  j2zeros <- zeros_then nzeros (jn_zeros special 2 nzeros) ;;
  dj2zeros <- differences j2zeros ;;
  de_j0zeros <- as_array (arr (jn_zeros special 0 de_n) / numpy_pi)%py ;;
  de_j1zeros <- as_array (arr (jn_zeros special 1 de_n) / numpy_pi)%py ;;
  de_j0_xs <- as_array (numpy_pi / float_ de_h
                        * _de_psi (float_ de_h * arr de_j0zeros))%py ;;
  de_j0_weights <-
    as_array (#2 / (numpy_pi * arr de_j0zeros
                    * special_j1 (numpy_pi * arr de_j0zeros) ** #2)
              * special_j0 (arr de_j0_xs)
              * _de_psiprime (float_ de_h * arr de_j0zeros))%py ;;
  de_j1_xs <- as_array (numpy_pi / float_ de_h
                        * _de_psi (float_ de_h * arr de_j1zeros))%py ;;
  de_j1_weights <-
    as_array (#2 / (numpy_pi * arr de_j1zeros
                    * special_jv 2 (numpy_pi * arr de_j1zeros) ** #2)
              * special_j1 (arr de_j1_xs)
              * _de_psiprime (float_ de_h * arr de_j1zeros))%py ;;
  normalize <- as_float (#4 * numpy_pi / float_ alpha ** #2 / float_ beta)%py ;;
  Ok {| _kmaxFac := kmaxFac; _glorder := glorder;
        _hr := hr; _scale := hr; _hz := hz;
        _alpha := alpha; _beta := beta; _gamma := gamma;
        _glx := glx; _glw := glw; _nzeros := nzeros;
        _j0zeros := j0zeros; _dj0zeros := dj0zeros;
        _j1zeros := j1zeros; _dj1zeros := dj1zeros;
        _j2zeros := j2zeros; _dj2zeros := dj2zeros;
        _de := de; _de_h := de_h; _de_n := de_n;
        _de_j0zeros := de_j0zeros; _de_j1zeros := de_j1zeros;
        _de_j0_xs := de_j0_xs; _de_j0_weights := de_j0_weights;
        _de_j1_xs := de_j1_xs; _de_j1_weights := de_j1_weights;
        _kp := Some (Kepler normalize) |}.

(** Conditions of [if] statements. *)
Definition gt_ (ea eb : E) : result bool :=
  a <- ea ;; b <- eb ;; compare_ fgtb a b.
Definition lt_ (ea eb : E) : result bool :=
  a <- ea ;; b <- eb ;; compare_ fltb a b.
Definition ge_ (ea eb : E) : result bool :=
  a <- ea ;; b <- eb ;; compare_ (fun x y => fleb y x) a b.

(** [self._kp.method(R,z)]. *)
Definition call_kp (self : DoubleExponentialDiskPotential)
  (method : KeplerPotential -> pyobj -> pyobj -> E) (R z : pyobj) : E :=
  match _kp self with
  | Some kp => method kp R z
  | None => Raise AttributeError
  end.

Definition hasattr_kp (self : DoubleExponentialDiskPotential) : bool :=
  match _kp self with Some _ => true | None => false end.

(** The two comprehensions every legacy branch repeats, for a table of
    zeros [jzeros], its differences [djzeros] and a number of intervals:
    [numpy.array([0.5*(self._glx+1.)*dj[ii+1] + j[ii] for ii in range(n)]).flatten()]
    and [numpy.array([self._glw*dj[ii+1] for ii in range(n)]).flatten()]. *)
Definition gauss_nodes (self : DoubleExponentialDiskPotential)
  (jzeros djzeros : list float64) (n : nat) : E :=
  array_flatten n (fun ii =>
    (#0.5 * (arr (_glx self) + #1) * getitem djzeros (ii + 1)
     + getitem jzeros ii)%py).

Definition gauss_weights (self : DoubleExponentialDiskPotential)
  (djzeros : list float64) (n : nat) : E :=
  array_flatten n (fun ii => (arr (_glw self) * getitem djzeros (ii + 1))%py).

(** The first lines of every legacy branch but [_evaluate]'s:
    [if isinstance(R,numpy.ndarray): ... numpy.array([self._f(rr,zz) for rr,zz in zip(R,z)])];
    the calls of [self._f] on the elements reach the scalar code [f]. *)
Definition over_arrays (f : pyobj -> pyobj -> E) (R z : pyobj) : E :=
  match R with
  | NdArray Rl =>
      zl <- match z with
            | NdArray zl => Ok zl
            | _ => as_array (arr (ones_like Rl) * Ok z)%py
            end ;;
      out <- mapM (fun rz => as_float (f (NpFloat (fst rz)) (NpFloat (snd rz))))
                  (combine Rl zl) ;;
      Ok (NdArray out)
  | _ => f R z
  end.

Definition _evaluate (self : DoubleExponentialDiskPotential) (R z : pyobj) : E :=
  inputs <- match R with
            | PyFloat r | NpFloat r =>
                match z with
                | PyFloat zz | NpFloat zz => Ok (true, [r], [zz])
                | NdArray _ => Raise NotModelled (* a two-dimensional z *)
                end
            | NdArray Rl =>
                match z with
                | NdArray zl => Ok (false, Rl, zl)
                | _ => zl <- as_array (Ok z * arr (ones_like Rl))%py ;;
                       Ok (false, Rl, zl)
                end
            end ;;
  let '(floatIn, R, z) := inputs in
  let outShape := length R in
  let alpha := float_ (_alpha self) in
  let beta := float_ (_beta self) in
  if _de self then
    let fun_ (R z x : E) : E :=
      ((alpha ** #2 + (x / R) ** #2) ** #(-1.5)
       * (beta * numpy_exp (- x / R * numpy_fabs z)
          - x / R * numpy_exp (- beta * numpy_fabs z))
       / (beta ** #2 - (x / R) ** #2))%py in
    rows <- broadcast_rows R z ;;
    sums <- mapM (fun rz =>
                    as_float (numpy_nansum
                                (fun_ (Ok (NpFloat (fst rz))) (Ok (NpFloat (snd rz)))
                                      (arr (_de_j0_xs self))
                                 * arr (_de_j0_weights self))%py))
                 rows ;;
    out <- as_array (- #4 * numpy_pi * alpha / arr R * arr sums)%py ;;
    if floatIn : bool then getitem out 0 else numpy_reshape out outShape
  else
    let out := repeat uninitialised (length R) in
    let indx := map (fun r => fleb r (Fin 6)) R in
    let not_indx := map negb indx in
    out <- (if (0 <? count_true not_indx)%nat
            then Rsel <- getmask R not_indx ;;
                 zsel <- getmask z not_indx ;;
                 v <- call_kp self __call__ Rsel zsel ;;
                 setmask out not_indx v
            else Ok out) ;;
    let R4max := map (fun r => if fltb r (Fin 1) then Fin 1 else r) R in
    let kmax := (float_ (_kmaxFac self) * beta)%py in
    out <- for_ (seq 0 (length R)) (fun jj out =>
      if negb (nth jj indx false) then Ok out else
      maxj0zeroIndx <- numpy_argmin
        ((arr (_j0zeros self) - kmax * getitem R4max jj) ** #2)%py ;;
      ks <- gauss_nodes self (_j0zeros self) (_dj0zeros self) maxj0zeroIndx ;;
      weights <- gauss_weights self (_dj0zeros self) maxj0zeroIndx ;;
      let ks := Ok ks in
      let weights := Ok weights in
      let evalInt :=
        (special_jn 0 (ks * getitem R jj)
         * (alpha ** #2 + ks ** #2) ** #(-1.5)
         * (beta * numpy_exp (- ks * numpy_fabs (getitem z jj))
            - ks * numpy_exp (- beta * numpy_fabs (getitem z jj)))
         / (beta ** #2 - ks ** #2))%py in
      v <- as_float (- #2 * numpy_pi * alpha * numpy_sum (weights * evalInt))%py ;;
      setitem out jj v) out ;;
    if floatIn : bool then getitem out 0 else numpy_reshape out outShape.

Definition _Rforce (self : DoubleExponentialDiskPotential) (R z : pyobj) : E :=
  let alpha := float_ (_alpha self) in
  let beta := float_ (_beta self) in
  if _de self then
    let R := Ok R in
    let z := Ok z in
    let fun_ (x : E) : E :=
      (x * (alpha ** #2 + (x / R) ** #2) ** #(-1.5)
       * (beta * numpy_exp (- x / R * numpy_fabs z)
          - x / R * numpy_exp (- beta * numpy_fabs z))
       / (beta ** #2 - (x / R) ** #2))%py in
    (- #4 * numpy_pi * alpha / R ** #2
     * numpy_nansum (fun_ (arr (_de_j1_xs self)) * arr (_de_j1_weights self)))%py
  else
    over_arrays (fun R z =>
      far <- gt_ (Ok R) (#16 * float_ (_hr self))%py ;;
      far <- (if far : bool then Ok true else gt_ (Ok R) #6) ;;
      if far && hasattr_kp self then call_kp self Rforce R z else
      let R := Ok R in
      let z := Ok z in
      small <- lt_ R #1 ;;
      let R4max := if small : bool then #1 else R in
      let kmax := (#2 * float_ (_kmaxFac self) * beta)%py in
      maxj1zeroIndx <- numpy_argmin
        ((arr (_j1zeros self) - kmax * R4max) ** #2)%py ;;
      ks <- gauss_nodes self (_j1zeros self) (_dj1zeros self) maxj1zeroIndx ;;
      weights <- gauss_weights self (_dj1zeros self) maxj1zeroIndx ;;
      let ks := Ok ks in
      let weights := Ok weights in
      let evalInt :=
        (ks * special_jn 1 (ks * R) * (alpha ** #2 + ks ** #2) ** #(-1.5)
         * (beta * numpy_exp (- ks * numpy_fabs z)
            - ks * numpy_exp (- beta * numpy_fabs z))
         / (beta ** #2 - ks ** #2))%py in
      (- #2 * numpy_pi * alpha * numpy_sum (weights * evalInt))%py) R z.

Definition _zforce (self : DoubleExponentialDiskPotential) (R z : pyobj) : E :=
  let alpha := float_ (_alpha self) in
  let beta := float_ (_beta self) in
  if _de self then
    let R := Ok R in
    let z := Ok z in
    let fun_ (x : E) : E :=
      ((alpha ** #2 + (x / R) ** #2) ** #(-1.5) * x / R
       * (numpy_exp (- x / R * numpy_fabs z)
          - numpy_exp (- beta * numpy_fabs z))
       / (beta ** #2 - (x / R) ** #2))%py in
    out <- (- #4 * numpy_pi * alpha * beta / R
            * numpy_nansum (fun_ (arr (_de_j0_xs self))
                            * arr (_de_j0_weights self)))%py ;;
    above <- gt_ z #0 ;;
    if above : bool then Ok out else (- Ok out)%py
  else
    over_arrays (fun R z =>
      far <- gt_ (Ok R) (#16 * float_ (_hr self))%py ;;
      far <- (if far : bool then Ok true else gt_ (Ok R) #6) ;;
      if far : bool then call_kp self zforce R z else
      let R := Ok R in
      let z := Ok z in
      small <- lt_ R #1 ;;
      let R4max := if small : bool then #1 else R in
      let kmax := (float_ (_kmaxFac self) * beta)%py in
      maxj0zeroIndx <- numpy_argmin
        ((arr (_j0zeros self) - kmax * R4max) ** #2)%py ;;
      ks <- gauss_nodes self (_j0zeros self) (_dj0zeros self) maxj0zeroIndx ;;
      weights <- gauss_weights self (_dj0zeros self) maxj0zeroIndx ;;
      let ks := Ok ks in
      let weights := Ok weights in
      evalInt <-
        (ks * special_jn 0 (ks * R) * (alpha ** #2 + ks ** #2) ** #(-1.5)
         * (numpy_exp (- ks * numpy_fabs z)
            - numpy_exp (- beta * numpy_fabs z))
         / (beta ** #2 - ks ** #2))%py ;;
      let evalInt := Ok evalInt in
      above <- gt_ z #0 ;;
      if above : bool
      then (- #2 * numpy_pi * alpha * beta * numpy_sum (weights * evalInt))%py
      else (#2 * numpy_pi * alpha * beta * numpy_sum (weights * evalInt))%py)
      R z.

Definition _R2deriv (self : DoubleExponentialDiskPotential) (R z : pyobj) : E :=
  let alpha := float_ (_alpha self) in
  let beta := float_ (_beta self) in
  if _de self then
    let R := Ok R in
    let z := Ok z in
    let fun_ (x : E) : E :=
      (x ** #2 * (alpha ** #2 + (x / R) ** #2) ** #(-1.5)
       * (beta * numpy_exp (- x / R * numpy_fabs z)
          - x / R * numpy_exp (- beta * numpy_fabs z))
       / (beta ** #2 - (x / R) ** #2))%py in
    (#4 * numpy_pi * alpha / R ** #3
     * numpy_nansum (fun_ (arr (_de_j0_xs self)) * arr (_de_j0_weights self)
                     - fun_ (arr (_de_j1_xs self)) / arr (_de_j1_xs self)
                       * arr (_de_j1_weights self)))%py
  else
    over_arrays (fun R z =>
      far <- gt_ (Ok R) (#16 * float_ (_hr self))%py ;;
      far <- (if far : bool then Ok true else gt_ (Ok R) #6) ;;
      if far : bool then call_kp self R2deriv R z else
      let R := Ok R in
      let z := Ok z in
      small <- lt_ R #1 ;;
      let R4max := if small : bool then #1 else R in
      let kmax := (#2 * float_ (_kmaxFac self) * beta)%py in
      maxj0zeroIndx <- numpy_argmin
        ((arr (_j0zeros self) - kmax * R4max) ** #2)%py ;;
      maxj2zeroIndx <- numpy_argmin
        ((arr (_j2zeros self) - kmax * R4max) ** #2)%py ;;
      ks0 <- gauss_nodes self (_j0zeros self) (_dj0zeros self) maxj0zeroIndx ;;
      weights0 <- gauss_weights self (_dj0zeros self) maxj0zeroIndx ;;
      ks2 <- gauss_nodes self (_j2zeros self) (_dj2zeros self) maxj2zeroIndx ;;
      weights2 <- gauss_weights self (_dj2zeros self) maxj2zeroIndx ;;
      let ks0 := Ok ks0 in
      let weights0 := Ok weights0 in
      let ks2 := Ok ks2 in
      let weights2 := Ok weights2 in
      let evalInt0 :=
        (ks0 ** #2 * special_jn 0 (ks0 * R)
         * (alpha ** #2 + ks0 ** #2) ** #(-1.5)
         * (beta * numpy_exp (- ks0 * numpy_fabs z)
            - ks0 * numpy_exp (- beta * numpy_fabs z))
         / (beta ** #2 - ks0 ** #2))%py in
      let evalInt2 :=
        (ks2 ** #2 * special_jn 2 (ks2 * R)
         * (alpha ** #2 + ks2 ** #2) ** #(-1.5)
         * (beta * numpy_exp (- ks2 * numpy_fabs z)
            - ks2 * numpy_exp (- beta * numpy_fabs z))
         / (beta ** #2 - ks2 ** #2))%py in
      (numpy_pi * alpha * (numpy_sum (weights0 * evalInt0)
                           - numpy_sum (weights2 * evalInt2)))%py) R z.

Definition _z2deriv (self : DoubleExponentialDiskPotential) (R z : pyobj) : E :=
  let alpha := float_ (_alpha self) in
  let beta := float_ (_beta self) in
  if _de self then
    let R := Ok R in
    let z := Ok z in
    let fun_ (x : E) : E :=
      ((alpha ** #2 + (x / R) ** #2) ** #(-1.5) * x / R
       * (x / R * numpy_exp (- x / R * numpy_fabs z)
          - beta * numpy_exp (- beta * numpy_fabs z))
       / (beta ** #2 - (x / R) ** #2))%py in
    (- #4 * numpy_pi * alpha * beta / R
     * numpy_nansum (fun_ (arr (_de_j0_xs self)) * arr (_de_j0_weights self)))%py
  else
    over_arrays (fun R z =>
      far <- gt_ (Ok R) (#16 * float_ (_hr self))%py ;;
      far <- (if far : bool then Ok true else gt_ (Ok R) #6) ;;
      if far : bool then call_kp self z2deriv R z else
      let R := Ok R in
      let z := Ok z in
      small <- lt_ R #1 ;;
      let R4max := if small : bool then #1 else R in
      let kmax := (float_ (_kmaxFac self) * beta)%py in
      maxj0zeroIndx <- numpy_argmin
        ((arr (_j0zeros self) - kmax * R4max) ** #2)%py ;;
      ks <- gauss_nodes self (_j0zeros self) (_dj0zeros self) maxj0zeroIndx ;;
      weights <- gauss_weights self (_dj0zeros self) maxj0zeroIndx ;;
      let ks := Ok ks in
      let weights := Ok weights in
      let evalInt :=
        (ks * special_jn 0 (ks * R) * (alpha ** #2 + ks ** #2) ** #(-1.5)
         * (ks * numpy_exp (- ks * numpy_fabs z)
            - beta * numpy_exp (- beta * numpy_fabs z))
         / (beta ** #2 - ks ** #2))%py in
      (- #2 * numpy_pi * alpha * beta * numpy_sum (weights * evalInt))%py) R z.

Definition _Rzderiv (self : DoubleExponentialDiskPotential) (R z : pyobj) : E :=
  let alpha := float_ (_alpha self) in
  let beta := float_ (_beta self) in
  if _de self then
    let R := Ok R in
    let z := Ok z in
    let fun_ (x : E) : E :=
      ((alpha ** #2 + (x / R) ** #2) ** #(-1.5) * (x / R) ** #2
       * (numpy_exp (- x / R * numpy_fabs z)
          - numpy_exp (- beta * numpy_fabs z))
       / (beta ** #2 - (x / R) ** #2))%py in
    out <- (- #4 * numpy_pi * alpha * beta / R
            * numpy_nansum (fun_ (arr (_de_j1_xs self))
                            * arr (_de_j1_weights self)))%py ;;
    above <- gt_ z #0 ;;
    if above : bool then Ok out else (- Ok out)%py
  else
    over_arrays (fun R z =>
      far <- gt_ (Ok R) #6 ;;
      if far : bool then call_kp self Rzderiv R z else
      let R := Ok R in
      let z := Ok z in
      small <- lt_ R #1 ;;
      let R4max := if small : bool then #1 else R in
      let kmax := (#2 * float_ (_kmaxFac self) * beta)%py in
      maxj1zeroIndx <- numpy_argmin
        ((arr (_j1zeros self) - kmax * R4max) ** #2)%py ;;
      ks <- gauss_nodes self (_j1zeros self) (_dj1zeros self) maxj1zeroIndx ;;
      weights <- gauss_weights self (_dj1zeros self) maxj1zeroIndx ;;
      let ks := Ok ks in
      let weights := Ok weights in
      evalInt <-
        (ks ** #2 * special_jn 1 (ks * R)
         * (alpha ** #2 + ks ** #2) ** #(-1.5)
         * (numpy_exp (- ks * numpy_fabs z)
            - numpy_exp (- beta * numpy_fabs z))
         / (beta ** #2 - ks ** #2))%py ;;
      let evalInt := Ok evalInt in
      nonneg <- ge_ z #0 ;;
      if nonneg : bool
      then (- #2 * numpy_pi * alpha * beta * numpy_sum (weights * evalInt))%py
      else (#2 * numpy_pi * alpha * beta * numpy_sum (weights * evalInt))%py)
      R z.

Definition _dens (self : DoubleExponentialDiskPotential) (R z : pyobj) : E :=
  let alpha := float_ (_alpha self) in
  let beta := float_ (_beta self) in
  let R := Ok R in
  let z := Ok z in
  numpy_exp (- alpha * R - beta * numpy_fabs z)%py.

Definition _surfdens (self : DoubleExponentialDiskPotential) (R z : pyobj) : E :=
  let alpha := float_ (_alpha self) in
  let beta := float_ (_beta self) in
  let R := Ok R in
  let z := Ok z in
  (#2 * numpy_exp (- alpha * R) / beta
   * (#1 - numpy_exp (- beta * numpy_fabs z)))%py.

End Class.


(* ================================================================== *)
(** ** Vocabulary of the statements *)

(** [R] also names the cylindrical radius below. *)
Abbreviation real := Rdefinitions.R (only parsing).

Definition Rsum (l : list R) : R := fold_right Rplus 0 l.

(** The real a finite double stands for. *)
Definition real_of (x : float64) : R :=
  match x with
  | Fin r => r
  | _ => 0
  end.

Definition finite (x : float64) : Prop :=
  match x with
  | Fin _ => True
  | _ => False
  end.

Definition positive (x : float64) : Prop :=
  match x with
  | Fin r => 0 < r
  | _ => False
  end.

(** What [__init__] establishes and the evaluation methods rely on: positive
    scale lengths, [alpha = 1/hr], [beta = 1/hz], and double-exponential
    tables of one common length with positive nodes and finite weights. *)
Record constructed (self : DoubleExponentialDiskPotential) : Prop := {
  hr_positive : positive (_hr self);
  hz_positive : positive (_hz self);
  alpha_is : _alpha self = Fin (1 / real_of (_hr self));
  beta_is : _beta self = Fin (1 / real_of (_hz self));
  j0_xs_positive : Forall positive (_de_j0_xs self);
  j1_xs_positive : Forall positive (_de_j1_xs self);
  j0_weights_finite : Forall finite (_de_j0_weights self);
  j1_weights_finite : Forall finite (_de_j1_weights self);
  j0_length : length (_de_j0_xs self) = _de_n self;
  j0_weights_length : length (_de_j0_weights self) = _de_n self;
  j1_length : length (_de_j1_xs self) = _de_n self;
  j1_weights_length : length (_de_j1_weights self) = _de_n self
}.

(** The shape parameters and tables of a model as reals. *)
Definition alpha_of (self : DoubleExponentialDiskPotential) : R :=
  real_of (_alpha self).
Definition beta_of (self : DoubleExponentialDiskPotential) : R :=
  real_of (_beta self).
Definition nodes0 (self : DoubleExponentialDiskPotential) : list R :=
  map real_of (_de_j0_xs self).
Definition weights0 (self : DoubleExponentialDiskPotential) : list R :=
  map real_of (_de_j0_weights self).
Definition nodes1 (self : DoubleExponentialDiskPotential) : list R :=
  map real_of (_de_j1_xs self).
Definition weights1 (self : DoubleExponentialDiskPotential) : list R :=
  map real_of (_de_j1_weights self).

(** *** The potential as the specification words it

    The prefactor [-4 pi alpha / R] times the sum over the order-0 nodes of
    [weight * kernel], a term being skipped when it is not finite, which for
    real nodes means that the kernel divides by zero. *)

Definition potential_kernel (alpha beta R z x : real) : real :=
  Rpower (alpha ^ 2 + (x / R) ^ 2) (- 3 / 2)
  * (beta * exp (- (x / R) * Rabs z) - (x / R) * exp (- beta * Rabs z))
  / (beta ^ 2 - (x / R) ^ 2).

Definition kernel_is_finite (beta R x : real) : bool :=
  if Req_dec_T (beta ^ 2 - (x / R) ^ 2) 0 then false else true.

Definition skipping_sum (keep : R -> bool) (term : R -> R -> R)
  (xs ws : list R) : R :=
  Rsum (map (fun xw => if keep (fst xw) then term (fst xw) (snd xw) else 0)
            (combine xs ws)).

Definition potential_by_the_spec (self : DoubleExponentialDiskPotential)
  (R z : real) : real :=
  - 4 * PI * alpha_of self / R
  * skipping_sum (kernel_is_finite (beta_of self) R)
      (fun x w => w * potential_kernel (alpha_of self) (beta_of self) R z x)
      (nodes0 self) (weights0 self).

(** The model with another object behind [self._kp]. *)
Definition with_kp (self : DoubleExponentialDiskPotential)
  (kp : option KeplerPotential) : DoubleExponentialDiskPotential :=
  {| _kmaxFac := _kmaxFac self; _glorder := _glorder self;
     _hr := _hr self; _scale := _scale self; _hz := _hz self;
     _alpha := _alpha self; _beta := _beta self; _gamma := _gamma self;
     _glx := _glx self; _glw := _glw self; _nzeros := _nzeros self;
     _j0zeros := _j0zeros self; _dj0zeros := _dj0zeros self;
     _j1zeros := _j1zeros self; _dj1zeros := _dj1zeros self;
     _j2zeros := _j2zeros self; _dj2zeros := _dj2zeros self;
     _de := _de self; _de_h := _de_h self; _de_n := _de_n self;
     _de_j0zeros := _de_j0zeros self; _de_j1zeros := _de_j1zeros self;
     _de_j0_xs := _de_j0_xs self; _de_j0_weights := _de_j0_weights self;
     _de_j1_xs := _de_j1_xs self; _de_j1_weights := _de_j1_weights self;
     _kp := kp |}.

(** A method call.  Python hands [self] over by reference; none of the
    eight evaluation methods assigns to an attribute, so the object after
    the call is the object before it. *)
Definition call (method : DoubleExponentialDiskPotential -> pyobj -> pyobj -> E)
  (self : DoubleExponentialDiskPotential) (R z : pyobj)
  : E * DoubleExponentialDiskPotential :=
  (method self R z, self).

(** The call raised. *)
Definition fails {A : Type} (r : result A) : Prop := exists e, r = Raise e.

(** The call returned a number. *)
Definition returns_a_number (r : E) : Prop := exists v, r = Ok (NpFloat v).

(* ================================================================== *)
(** ** Concrete models *)

(** Modelled from the spec: the asymptotic fallback potential (class
    [KeplerPotential] of [PowerSphericalPotential.py], which is not among
    the sources), "a point-mass potential": [Phi = - M / sqrt(R^2+z^2)] and
    its derivatives. *)
Definition point_mass (M : float64) : KeplerPotential :=
  let r2 (R z : pyobj) : E := (Ok R ** #2 + Ok z ** #2)%py in
  {| __call__ := fun R z => (- float_ M * r2 R z ** #(-0.5))%py;
     Rforce := fun R z => (- float_ M * Ok R * r2 R z ** #(-1.5))%py;
     zforce := fun R z => (- float_ M * Ok z * r2 R z ** #(-1.5))%py;
     R2deriv := fun R z =>
       (float_ M * r2 R z ** #(-1.5)
        - #3 * float_ M * Ok R ** #2 * r2 R z ** #(-2.5))%py;
     z2deriv := fun R z =>
       (float_ M * r2 R z ** #(-1.5)
        - #3 * float_ M * Ok z ** #2 * r2 R z ** #(-2.5))%py;
     Rzderiv := fun R z =>
       (- #3 * float_ M * Ok R * Ok z * r2 R z ** #(-2.5))%py |}.

(** A stand-in for [scipy.special] on which the models below are built: the
    leading term [(k + nu/2 - 1/4) pi] of McMahon's expansion for the k-th
    zero of [J_nu], and the leading term of Hankel's expansion for
    [J_nu(x)] itself. *)
Definition mcmahon (nu k : nat) : R := (INR k + INR nu / 2 - 1 / 4) * PI.

Definition hankel (nu : nat) (x : float64) : float64 :=
  match x with
  | Fin r => Fin (sqrt (2 / (PI * r)) * cos (r - INR nu * PI / 2 - PI / 4))
  | PInf | NInf => Fin 0
  | NaN => NaN
  end.

Definition asymptotic_special : scipy_special :=
  {| jn_zeros := fun nu n => map (fun k => Fin (mcmahon nu k)) (seq 1 n);
     j0 := hankel 0;
     j1 := hankel 1;
     jv := hankel;
     jn := hankel |}.

(** The tables [__init__] derives from a sequence of zeros. *)
Definition zero_table (nu : nat) : list float64 :=
  Fin 0 :: jn_zeros asymptotic_special nu 100.

Definition difference_table (nu : nat) : list float64 :=
  Fin 0 :: Fin (mcmahon nu 1 - 0)
    :: map (fun k => Fin (mcmahon nu (S k) - mcmahon nu k)) (seq 1 99).

(** The reference disk, [hr=1/3], [hz=1/16], with the one-point
    Gauss-Legendre rule ([leggauss(1)] is the node 0 with weight 2) and
    two-node double-exponential tables: the nodes and weights that
    [de_h=1e-3], [de_n=2] give, to three significant digits. *)
Definition reference_disk (de : bool) : DoubleExponentialDiskPotential :=
  {| _kmaxFac := Fin 2; _glorder := 1;
     _hr := Fin (1 / 3); _scale := Fin (1 / 3); _hz := Fin (1 / 16);
     _alpha := Fin (1 / (1 / 3)); _beta := Fin (1 / (1 / 16));
     _gamma := Fin (1 / (1 / 3) / (1 / (1 / 16)));
     _glx := [Fin 0]; _glw := [Fin 2]; _nzeros := 100;
     _j0zeros := zero_table 0; _dj0zeros := difference_table 0;
     _j1zeros := zero_table 1; _dj1zeros := difference_table 1;
     _j2zeros := zero_table 2; _dj2zeros := difference_table 2;
     _de := de; _de_h := Fin 0.001; _de_n := 2;
     _de_j0zeros := [Fin 0.765; Fin 1.757];
     _de_j1zeros := [Fin 1.220; Fin 2.233];
     _de_j0_xs := [Fin 0.00289; Fin 0.01524];
     _de_j0_weights := [Fin 0.00742; Fin 0.01727];
     _de_j1_xs := [Fin 0.00734; Fin 0.02461];
     _de_j1_weights := [Fin 0.0000453; Fin 0.0002732];
     _kp := Some (point_mass (Fin (4 * PI / (1 / (1 / 3) * (1 / (1 / 3)))
                                   / (1 / (1 / 16))))) |}.

(** The same disk with the scale height chosen so that [beta = 1/hz] is the
    first Gauss-Legendre node of the legacy rule, half the first zero. *)
Definition singular_disk : DoubleExponentialDiskPotential :=
  {| _kmaxFac := Fin 2; _glorder := 1;
     _hr := Fin (1 / 3); _scale := Fin (1 / 3);
     _hz := Fin (2 / mcmahon 0 1);
     _alpha := Fin (1 / (1 / 3)); _beta := Fin (1 / (2 / mcmahon 0 1));
     _gamma := Fin (1 / (1 / 3) / (1 / (2 / mcmahon 0 1)));
     _glx := [Fin 0]; _glw := [Fin 2]; _nzeros := 100;
     _j0zeros := zero_table 0; _dj0zeros := difference_table 0;
     _j1zeros := zero_table 1; _dj1zeros := difference_table 1;
     _j2zeros := zero_table 2; _dj2zeros := difference_table 2;
     _de := false; _de_h := Fin 0.001; _de_n := 2;
     _de_j0zeros := [Fin 0.765; Fin 1.757];
     _de_j1zeros := [Fin 1.220; Fin 2.233];
     _de_j0_xs := [Fin 0.00289; Fin 0.01524];
     _de_j0_weights := [Fin 0.00742; Fin 0.01727];
     _de_j1_xs := [Fin 0.00734; Fin 0.02461];
     _de_j1_weights := [Fin 0.0000453; Fin 0.0002732];
     _kp := Some (point_mass (Fin (4 * PI / (1 / (1 / 3) * (1 / (1 / 3)))
                                   / (1 / (2 / mcmahon 0 1))))) |}.

(** A double that is zero or NaN: what a product with a zero factor is. *)
Definition zero_or_nan (x : float64) : Prop := x = NaN \/ x = Fin 0.

(** [f z] is a number for [|z|] large and tends to [l] as [|z|] tends to
    infinity. *)
Definition tends_to_far_from_the_plane (f : real -> E) (l : real) : Prop :=
  forall eps, 0 < eps ->
  exists Z, forall z, Z < Rabs z ->
  exists v, f z = Ok (NpFloat (Fin v)) /\ Rabs (v - l) < eps.

(** The eight evaluation methods of the class. *)
Definition evaluation_methods (special : scipy_special) (uninitialised : float64)
  : list (DoubleExponentialDiskPotential -> pyobj -> pyobj -> E) :=
  [ _evaluate special uninitialised; _Rforce special; _zforce special;
    _R2deriv special; _z2deriv special; _Rzderiv special;
    _dens; _surfdens ].

(** Those whose double-exponential branch divides a builtin float by [R]. *)
Definition methods_dividing_by_R (special : scipy_special)
  : list (DoubleExponentialDiskPotential -> pyobj -> pyobj -> E) :=
  [ _Rforce special; _zforce special; _R2deriv special; _z2deriv special;
    _Rzderiv special ].

(** *** The second radial derivative as the specification words it

    [+4 pi alpha / R^3] times the difference between the order-0 weighted
    kernel sum and the order-1 weighted kernel sum, each order-1 term being
    divided by its node. *)

Definition R2deriv_kernel (alpha beta R z x : real) : real :=
  x ^ 2 * Rpower (alpha ^ 2 + (x / R) ^ 2) (- 3 / 2)
  * (beta * exp (- (x / R) * Rabs z) - (x / R) * exp (- beta * Rabs z))
  / (beta ^ 2 - (x / R) ^ 2).

Definition R2deriv_by_the_spec (self : DoubleExponentialDiskPotential)
  (R z : real) : real :=
  let K := R2deriv_kernel (alpha_of self) (beta_of self) R z in
  4 * PI * alpha_of self / R ^ 3
  * (skipping_sum (kernel_is_finite (beta_of self) R)
       (fun x w => w * K x) (nodes0 self) (weights0 self)
     - skipping_sum (kernel_is_finite (beta_of self) R)
         (fun x w => w * (K x / x)) (nodes1 self) (weights1 self)).

(** What the method sums instead: the differences index by index, a
    difference being dropped as a whole when either of its two terms is not
    finite. *)
Definition R2deriv_by_the_code (self : DoubleExponentialDiskPotential)
  (R z : real) : real :=
  let K := R2deriv_kernel (alpha_of self) (beta_of self) R z in
  let keep := kernel_is_finite (beta_of self) R in
  4 * PI * alpha_of self / R ^ 3
  * Rsum (map (fun p : (real * real) * (real * real) =>
                 let (xw0, xw1) := p in
                 if keep (fst xw0) && keep (fst xw1)
                 then snd xw0 * K (fst xw0) - snd xw1 * (K (fst xw1) / fst xw1)
                 else 0)
              (combine (combine (nodes0 self) (weights0 self))
                       (combine (nodes1 self) (weights1 self)))).

(** No node of either table sits on the singularity [x/R = beta]. *)
Definition regular_radius (self : DoubleExponentialDiskPotential) (R : real)
  : Prop :=
  Forall (fun x => kernel_is_finite (beta_of self) R x = true)
         (nodes0 self ++ nodes1 self).

(* ================================================================== *)
(** ** The double-exponential tables *)

(** A strictly increasing table. *)
Definition increasing (l : list float64) : Prop :=
  StronglySorted (fun a b => fltb a b = true) l.

(** Two finite doubles of the same sign. *)
Definition same_sign (w j : float64) : Prop :=
  match w, j with
  | Fin a, Fin b => sgn a = sgn b
  | _, _ => False
  end.

(** What the class needs of [scipy.special]: [jn_zeros(nu,n)] is an
    increasing table of [n] positive numbers, the Bessel functions are
    finite at every finite argument, and the function of the next order
    does not vanish at a tabulated zero. *)
Record bessel_contract (special : scipy_special) : Prop := {
  jn_zeros_length : forall nu n, length (jn_zeros special nu n) = n;
  jn_zeros_positive : forall nu n, Forall positive (jn_zeros special nu n);
  jn_zeros_increasing : forall nu n, increasing (jn_zeros special nu n);
  j0_finite : forall x, finite (j0 special (Fin x));
  j1_finite : forall x, finite (j1 special (Fin x));
  j2_finite : forall x, finite (jv special 2 (Fin x));
  j1_at_zeros_of_j0 : forall n x,
    In (Fin x) (jn_zeros special 0 n) -> j1 special (Fin x) <> Fin 0;
  j2_at_zeros_of_j1 : forall n x,
    In (Fin x) (jn_zeros special 1 n) -> jv special 2 (Fin x) <> Fin 0
}.

(** The node and the weight that [__init__] derives from a zero [x] of the
    Bessel function [J], [Jnext] being the function of the next order:
    [pi/h*_de_psi(h*x/pi)] and
    [2/(pi*(x/pi)*Jnext(pi*(x/pi))**2)*J(node)*_de_psiprime(h*x/pi)]. *)
Definition de_node (h x : float64) : float64 :=
  let t := fmul h (fdiv x (Fin PI)) in
  fmul (fdiv (Fin PI) h)
    (fmul t (ftanh (fmul (fdiv (Fin PI) (Fin 2)) (fsinh t)))).

Definition de_weight (Jnext J : float64 -> float64) (h x : float64)
  : float64 :=
  let zero := fdiv x (Fin PI) in
  let t := fmul h zero in
  fmul
    (fmul
       (fdiv (Fin 2)
          (fmul (fmul (Fin PI) zero)
             (fpow (Jnext (fmul (Fin PI) zero)) (Fin 2))))
       (J (de_node h x)))
    (fdiv
       (fadd (fsinh (fmul (Fin PI) (fsinh t)))
          (fmul (fmul (Fin PI) t) (fcosh t)))
       (fadd (fcosh (fmul (Fin PI) (fsinh t))) (Fin 1))).

(** [numpy.polynomial.legendre.leggauss] at order one, the only order the
    concrete models use. *)
Definition one_point_rule (n : nat) : list float64 * list float64 :=
  match n with
  | 1%nat => ([Fin 0], [Fin 2])
  | _ => ([], [])
  end.

(** The default tuning of the double-exponential tables, [de_h=1e-3] and
    [de_n=10000]. *)
Definition default_de_h : float64 := Fin 0.001.
Definition default_de_n : nat := (100 * 100)%nat.

(* ================================================================== *)
(** ** Reflection in the plane *)

(** What the parity of the disk needs of the fallback potential: its value
    and second vertical derivative are even in [z], its vertical force and
    mixed derivative odd, at the argument shapes the class passes. *)
Record kepler_parity (kp : KeplerPotential) : Prop := {
  kp_call_even : forall (R : float64) (z : real),
    __call__ kp (NdArray [R]) (NdArray [Fin (- z)])
    = __call__ kp (NdArray [R]) (NdArray [Fin z]);
  kp_z2deriv_even : forall (R : float64) (z : real),
    z2deriv kp (PyFloat R) (PyFloat (Fin (- z)))
    = z2deriv kp (PyFloat R) (PyFloat (Fin z));
  kp_zforce_odd : forall (R : float64) (z : real),
    zforce kp (PyFloat R) (PyFloat (Fin (- z)))
    = (- zforce kp (PyFloat R) (PyFloat (Fin z)))%py;
  kp_Rzderiv_odd : forall (R : float64) (z : real),
    Rzderiv kp (PyFloat R) (PyFloat (Fin (- z)))
    = (- Rzderiv kp (PyFloat R) (PyFloat (Fin z)))%py
}.

Definition symmetric_fallback (self : DoubleExponentialDiskPotential) : Prop :=
  match _kp self with
  | Some kp => kepler_parity kp
  | None => True
  end.

(** An expression whose value, if it has one, consists of zeros and NaNs. *)
Definition vanishing (e : E) : Prop :=
  match e with
  | Ok (PyFloat x) | Ok (NpFloat x) => zero_or_nan x
  | Ok (NdArray l) => Forall zero_or_nan l
  | Raise _ => True
  end.

(* ================================================================== *)
(** ** Further vocabulary: the helpers, the constructor, the quadratures *)

(** What [_de_psi] and [_de_psiprime] return at a finite [t]. *)
Definition de_psi_at (t : R) : R := t * tanh (PI / 2 * sinh t).
Definition de_psiprime_at (t : R) : R :=
  (sinh (PI * sinh t) + PI * t * cosh t) / (cosh (PI * sinh t) + 1).

(** [dj] holds the first entry of [j] and then the gaps between consecutive
    entries of [j]. *)
Definition gaps_of (j dj : list float64) : Prop :=
  length dj = length j
  /\ nth 0 dj NaN = nth 0 j NaN
  /\ forall i, (S i < length j)%nat ->
       nth (S i) dj NaN = fsub (nth (S i) j NaN) (nth i j NaN).

(** The tables of the legacy quadrature are well formed: every table of
    zeros starts an array of gaps of the same length, and the Gauss-Legendre
    rule has as many weights as nodes. *)
Definition legacy_tables (self : DoubleExponentialDiskPotential) : Prop :=
  length (_glx self) = length (_glw self)
  /\ (_j0zeros self <> [] /\ length (_dj0zeros self) = length (_j0zeros self))
  /\ (_j1zeros self <> [] /\ length (_dj1zeros self) = length (_j1zeros self))
  /\ (_j2zeros self <> [] /\ length (_dj2zeros self) = length (_j2zeros self)).

(** The nodes and weights the legacy branches lay on the first [n]
    intervals between consecutive zeros. *)
Definition interval_nodes (glx j dj : list float64) (n : nat) : list float64 :=
  concat (map (fun ii =>
                 map (fun g => fadd (fmul (fmul (Fin 0.5) (fadd g (Fin 1)))
                                       (nth (ii + 1) dj NaN))
                                 (nth ii j NaN)) glx)
              (seq 0 n)).

Definition interval_weights (glw dj : list float64) (n : nat) : list float64 :=
  concat (map (fun ii => map (fun w => fmul w (nth (ii + 1) dj NaN)) glw)
              (seq 0 n)).


(* ================================================================== *)
(** ** Facts about doubles *)

Lemma sgn_pos (r : R) : 0 < r -> sgn r = Gt.
Proof.
  intros Hr. unfold sgn.
  destruct (total_order_T r 0) as [[Hlt | Heq] | Hgt]; trivial; lra.
Qed.

Lemma sgn_neg (r : R) : r < 0 -> sgn r = Lt.
Proof.
  intros Hr. unfold sgn.
  destruct (total_order_T r 0) as [[Hlt | Heq] | Hgt]; trivial; lra.
Qed.

Lemma sgn_zero (r : R) : r = 0 -> sgn r = Eq.
Proof.
  intros Hr. unfold sgn.
  destruct (total_order_T r 0) as [[Hlt | Heq] | Hgt]; trivial; lra.
Qed.

Lemma is_zero_fin (r : R) : r <> 0 -> is_zero (Fin r) = false.
Proof.
  intros Hr. unfold is_zero. destruct (Req_dec_T r 0); [contradiction | reflexivity].
Qed.

Lemma fdiv_fin (x y : R) : y <> 0 -> fdiv (Fin x) (Fin y) = Fin (x / y).
Proof.
  intros Hy. unfold fdiv. destruct (Req_dec_T y 0); [contradiction | reflexivity].
Qed.

Lemma fdiv_0_0 (x y : R) : x = 0 -> y = 0 -> fdiv (Fin x) (Fin y) = NaN.
Proof.
  intros Hx Hy. unfold fdiv. destruct (Req_dec_T y 0); [| contradiction].
  now rewrite (sgn_zero x Hx).
Qed.

Lemma as_integer_IZR (n : Z) : as_integer (IZR n) = Some n.
Proof.
  unfold as_integer.
  assert (H : Int_part (IZR n) = n) by (symmetry; apply Int_part_spec; lra).
  rewrite H. destruct (Req_dec_T (IZR n) (IZR n)); [reflexivity | contradiction].
Qed.

Lemma as_integer_minus_three_halves : as_integer (-1.5) = None.
Proof.
  unfold as_integer.
  assert (H : Int_part (-1.5) = (-2)%Z) by (symmetry; apply Int_part_spec; lra).
  rewrite H. destruct (Req_dec_T (IZR (-2)) (-1.5)); [lra | reflexivity].
Qed.

Lemma fpow_int (r : R) (n : Z) :
  (0 < n)%Z -> fpow (Fin r) (Fin (IZR n)) = Fin (powerRZ r n).
Proof.
  intros Hn. unfold fpow.
  rewrite (sgn_pos _ (IZR_lt 0 n Hn)), as_integer_IZR.
  unfold sgn. destruct (total_order_T r 0) as [[Hlt | Heq] | Hgt]; trivial.
  subst r. f_equal. destruct n as [| p | p]; try lia.
  simpl. symmetry. apply pow_i. lia.
Qed.

Lemma fpow_2 (r : R) : fpow (Fin r) (Fin 2) = Fin (r * r).
Proof. rewrite (fpow_int r 2) by lia. simpl. f_equal. ring. Qed.

Lemma fpow_3 (r : R) : fpow (Fin r) (Fin 3) = Fin (r * r * r).
Proof. rewrite (fpow_int r 3) by lia. simpl. f_equal. ring. Qed.

Lemma fpow_minus_three_halves (a : R) :
  0 < a -> fpow (Fin a) (Fin (-1.5)) = Fin (Rpower a (-1.5)).
Proof.
  intros Ha. unfold fpow.
  rewrite (sgn_neg (-1.5)) by lra.
  now rewrite (sgn_pos a Ha), as_integer_minus_three_halves.
Qed.

Lemma float_pow_int (x : float64) (n : Z) :
  (0 < n)%Z -> float_pow x (Fin (IZR n)) = Ok (fpow x (Fin (IZR n))).
Proof.
  intros Hn. destruct x as [r | | |]; trivial.
  unfold float_pow. rewrite (sgn_pos _ (IZR_lt 0 n Hn)), as_integer_IZR.
  now destruct (sgn r).
Qed.

Lemma float_pow_2 (x : float64) : float_pow x (Fin 2) = Ok (fpow x (Fin 2)).
Proof. apply (float_pow_int x 2). lia. Qed.

Lemma float_pow_3 (x : float64) : float_pow x (Fin 3) = Ok (fpow x (Fin 3)).
Proof. apply (float_pow_int x 3). lia. Qed.

Lemma float_truediv_nonzero (x y : float64) :
  is_zero y = false -> float_truediv x y = Ok (fdiv x y).
Proof. intros Hy. unfold float_truediv. now rewrite Hy. Qed.

Lemma fabs_fneg (x : float64) : fabs (fneg x) = fabs x.
Proof. destruct x; simpl; trivial. now rewrite Rabs_Ropp. Qed.

Lemma fneg_fneg (x : float64) : fneg (fneg x) = x.
Proof. destruct x; simpl; trivial. f_equal. ring. Qed.

Lemma fsum_from (l : list R) (acc : R) :
  fold_left fadd (map Fin l) (Fin acc) = Fin (acc + Rsum l).
Proof.
  revert acc. induction l as [| x l IH]; intros acc; simpl.
  - f_equal. ring.
  - rewrite IH. f_equal. ring.
Qed.

Lemma fsum_fin (l : list R) : fsum (map Fin l) = Fin (Rsum l).
Proof. unfold fsum. rewrite fsum_from. f_equal. ring. Qed.

Lemma fold_fadd_nan (l : list float64) : fold_left fadd l NaN = NaN.
Proof. induction l as [| x l IH]; simpl; trivial. Qed.

(** One NaN term makes [numpy.sum] NaN. *)
Lemma fsum_nan (l : list float64) : In NaN l -> fsum l = NaN.
Proof.
  unfold fsum. generalize (Fin 0).
  induction l as [| x l IH]; intros acc Hin; simpl in *; [contradiction |].
  destruct Hin as [-> | Hin].
  - replace (fadd acc NaN) with NaN by now destruct acc.
    apply fold_fadd_nan.
  - now apply IH.
Qed.

(** [numpy.nansum] of terms that are finite or NaN is the sum of the finite
    ones. *)
Lemma fnansum_fin {A : Type} (t : A -> float64) (v : A -> R) (l : list A) :
  (forall a, In a l -> nan_to_zero (t a) = Fin (v a)) ->
  fnansum (map t l) = Fin (Rsum (map v l)).
Proof.
  intros H. unfold fnansum. rewrite <- fsum_fin, !map_map. f_equal.
  apply map_ext_in. exact H.
Qed.

Lemma Rsum_zero {A : Type} (v : A -> R) (l : list A) :
  (forall a, In a l -> v a = 0) -> Rsum (map v l) = 0.
Proof.
  induction l as [| a l IH]; intros H; simpl; [reflexivity |].
  rewrite (H a) by now left. rewrite IH; [ring |].
  intros b Hb. apply H. now right.
Qed.

Lemma finite_is_fin (x : float64) : finite x -> x = Fin (real_of x).
Proof. destruct x; simpl; intros H; trivial; contradiction. Qed.

Lemma positive_finite (x : float64) : positive x -> finite x.
Proof. destruct x; simpl; trivial. Qed.

Lemma Forall_finite_map (l : list float64) :
  Forall finite l -> l = map Fin (map real_of l).
Proof.
  induction 1 as [| x l Hx _ IH]; simpl; [reflexivity |].
  now rewrite <- IH, <- (finite_is_fin x Hx).
Qed.

Lemma Forall_positive_map (l : list float64) :
  Forall positive l -> Forall (fun r => 0 < r) (map real_of l).
Proof.
  induction 1 as [| x l Hx _ IH]; simpl; constructor; trivial.
  destruct x; simpl in *; trivial; contradiction.
Qed.

Lemma Forall_positive_finite (l : list float64) :
  Forall positive l -> Forall finite l.
Proof. apply Forall_impl. exact positive_finite. Qed.

(* ================================================================== *)
(** ** Facts about the numpy operators *)

Lemma zipWith_map_map {A : Type} h (f g : A -> float64) (l : list A) :
  zipWith h (map f l) (map g l) = map (fun x => h (f x) (g x)) l.
Proof.
  unfold zipWith. induction l as [| a l IH]; simpl; [reflexivity |].
  now rewrite IH.
Qed.

Lemma broadcast_same_length h (a b : list float64) :
  length a = length b -> broadcast h a b = Ok (zipWith h a b).
Proof. intros H. unfold broadcast. now rewrite H, Nat.eqb_refl. Qed.

Lemma broadcast_map_map {A : Type} h (f g : A -> float64) (l : list A) :
  broadcast h (map f l) (map g l) = Ok (map (fun x => h (f x) (g x)) l).
Proof.
  rewrite broadcast_same_length by now rewrite !length_map.
  now rewrite zipWith_map_map.
Qed.

Lemma broadcast_map_combine {A B : Type} h
  (f : A -> float64) (g : B -> float64) (a : list A) (b : list B) :
  length a = length b ->
  broadcast h (map f a) (map g b)
  = Ok (map (fun p => h (f (fst p)) (g (snd p))) (combine a b)).
Proof.
  intros H. rewrite broadcast_same_length by now rewrite !length_map.
  f_equal. unfold zipWith. revert b H.
  induction a as [| x a IH]; intros [| y b] H; simpl in *;
    try discriminate; trivial.
  f_equal. apply IH. lia.
Qed.

Lemma broadcast_singleton h (a b : float64) : broadcast h [a] [b] = Ok [h a b].
Proof. reflexivity. Qed.

(** Evaluation of an expression as far as constructors allow, leaving the
    arithmetic on doubles folded. *)
Ltac np_simpl :=
  cbn -[float_pow float_truediv fpow fdiv fmul fadd fsub fexp fabs fneg
        broadcast fnansum fsum fgtb fltb fleb is_zero nan_to_zero].

Ltac np :=
  repeat (np_simpl;
          first [ rewrite float_pow_2 | rewrite float_pow_3
                | rewrite map_map | rewrite broadcast_map_map
                | rewrite broadcast_singleton ]);
  np_simpl.

(** The attributes of a constructed model are finite doubles. *)
Lemma constructed_alpha (self : DoubleExponentialDiskPotential) :
  constructed self -> _alpha self = Fin (alpha_of self) /\ 0 < alpha_of self.
Proof.
  intros C. unfold alpha_of. rewrite (alpha_is self C). simpl. split; trivial.
  pose proof (hr_positive self C) as H. destruct (_hr self); simpl in *; try contradiction.
  apply Rdiv_lt_0_compat; lra.
Qed.

Lemma constructed_beta (self : DoubleExponentialDiskPotential) :
  constructed self -> _beta self = Fin (beta_of self) /\ 0 < beta_of self.
Proof.
  intros C. unfold beta_of. rewrite (beta_is self C). simpl. split; trivial.
  pose proof (hz_positive self C) as H. destruct (_hz self); simpl in *; try contradiction.
  apply Rdiv_lt_0_compat; lra.
Qed.

Lemma constructed_tables0 (self : DoubleExponentialDiskPotential) :
  constructed self ->
  _de_j0_xs self = map Fin (nodes0 self)
  /\ _de_j0_weights self = map Fin (weights0 self)
  /\ length (nodes0 self) = length (weights0 self)
  /\ Forall (fun x => 0 < x) (nodes0 self).
Proof.
  intros C. unfold nodes0, weights0. repeat split.
  - apply Forall_finite_map, Forall_positive_finite, (j0_xs_positive self C).
  - apply Forall_finite_map, (j0_weights_finite self C).
  - rewrite !length_map, (j0_length self C). symmetry. apply (j0_weights_length self C).
  - apply Forall_positive_map, (j0_xs_positive self C).
Qed.

Lemma constructed_tables1 (self : DoubleExponentialDiskPotential) :
  constructed self ->
  _de_j1_xs self = map Fin (nodes1 self)
  /\ _de_j1_weights self = map Fin (weights1 self)
  /\ length (nodes1 self) = length (weights1 self)
  /\ Forall (fun x => 0 < x) (nodes1 self).
Proof.
  intros C. unfold nodes1, weights1. repeat split.
  - apply Forall_finite_map, Forall_positive_finite, (j1_xs_positive self C).
  - apply Forall_finite_map, (j1_weights_finite self C).
  - rewrite !length_map, (j1_length self C). symmetry. apply (j1_weights_length self C).
  - apply Forall_positive_map, (j1_xs_positive self C).
Qed.

Lemma constructed_same_length (self : DoubleExponentialDiskPotential) :
  constructed self -> length (nodes0 self) = length (nodes1 self).
Proof.
  intros C. unfold nodes0, nodes1.
  now rewrite !length_map, (j0_length self C), (j1_length self C).
Qed.

Lemma is_zero_fin_square (r : R) : r <> 0 -> is_zero (Fin (r * r)) = false.
Proof.
  intros Hr. apply is_zero_fin.
  now apply Rmult_integral_contrapositive_currified.
Qed.

Lemma is_zero_fin_cube (r : R) : r <> 0 -> is_zero (Fin (r * r * r)) = false.
Proof.
  intros Hr. apply is_zero_fin.
  repeat apply Rmult_integral_contrapositive_currified; assumption.
Qed.

(** Arithmetic on finite doubles. *)
Ltac f64 :=
  repeat first
    [ rewrite fpow_2
    | rewrite fpow_3
    | rewrite fdiv_fin
        by first [ assumption | lra
                 | repeat apply Rmult_integral_contrapositive_currified; lra ]
    | progress cbn [fadd fsub fmul fneg fexp fabs] ].

Lemma square_roots (b u : R) :
  0 < b -> 0 < u -> b * b + - (u * u) = 0 -> u = b.
Proof. intros Hb Hu H. nra. Qed.

Lemma fgtb_irrefl (r : R) : fgtb (Fin r) (Fin r) = false.
Proof. unfold fgtb, fltb. destruct (Rlt_dec r r); [lra | reflexivity]. Qed.

(** *** Products with a zero factor *)

Lemma zero_or_nan_fin (r : R) : r = 0 -> zero_or_nan (Fin r).
Proof. intros ->. now right. Qed.

Lemma fmul_zero_or_nan_r (y t : float64) :
  zero_or_nan t -> zero_or_nan (fmul y t).
Proof.
  intros [-> | ->].
  - left. now destruct y.
  - destruct y as [r | | |]; simpl.
    + apply zero_or_nan_fin. ring.
    + left. unfold inf_times. now rewrite sgn_zero.
    + left. unfold inf_times. now rewrite sgn_zero.
    + now left.
Qed.

Lemma fmul_zero_or_nan_l (t y : float64) :
  zero_or_nan t -> zero_or_nan (fmul t y).
Proof.
  intros [-> | ->].
  - now left.
  - destruct y as [r | | |]; simpl.
    + apply zero_or_nan_fin. ring.
    + left. unfold inf_times. now rewrite sgn_zero.
    + left. unfold inf_times. now rewrite sgn_zero.
    + now left.
Qed.

Lemma fdiv_zero_or_nan (t d : float64) :
  zero_or_nan t -> zero_or_nan (fdiv t d).
Proof.
  intros [-> | ->].
  - now left.
  - destruct d as [r | | |]; simpl; try (now left); try (now right).
    destruct (Req_dec_T r 0).
    + left. now rewrite sgn_zero.
    + apply zero_or_nan_fin. unfold Rdiv. ring.
Qed.

Lemma fexp_times_zero (u : float64) (r : R) :
  r = 0 -> fexp (fmul u (Fin r)) = NaN \/ fexp (fmul u (Fin r)) = Fin 1.
Proof.
  intros ->. destruct u as [x | | |]; simpl.
  - right. f_equal. rewrite Rmult_0_r. apply exp_0.
  - left. unfold inf_times. now rewrite sgn_zero.
  - left. unfold inf_times. now rewrite sgn_zero.
  - now left.
Qed.

(** [exp(-u*0) - exp(-v*0)], the factor every z-odd kernel carries at
    [z = 0]. *)
Lemma fsub_exp_zero (u v : float64) (r : R) :
  r = 0 -> zero_or_nan (fsub (fexp (fmul u (Fin r))) (fexp (fmul v (Fin r)))).
Proof.
  intros Hr.
  destruct (fexp_times_zero u r Hr) as [-> | ->];
    destruct (fexp_times_zero v r Hr) as [-> | ->]; simpl;
    try (now left).
  apply zero_or_nan_fin. ring.
Qed.

Lemma nan_to_zero_zero_or_nan (t : float64) :
  zero_or_nan t -> nan_to_zero t = Fin 0.
Proof. now intros [-> | ->]. Qed.

Lemma fnansum_zero {A : Type} (t : A -> float64) (l : list A) :
  (forall a, In a l -> zero_or_nan (t a)) -> fnansum (map t l) = Fin 0.
Proof.
  intros H. rewrite (fnansum_fin t (fun _ => 0)).
  - f_equal. now apply Rsum_zero.
  - intros a Ha. now apply nan_to_zero_zero_or_nan, H.
Qed.

Lemma constructed_scales (self : DoubleExponentialDiskPotential) :
  constructed self ->
  alpha_of self = 1 / real_of (_hr self) /\ 0 < real_of (_hr self)
  /\ beta_of self = 1 / real_of (_hz self) /\ 0 < real_of (_hz self).
Proof.
  intros C. unfold alpha_of, beta_of.
  rewrite (alpha_is _ C), (beta_is _ C). simpl.
  pose proof (hr_positive _ C) as Hr. pose proof (hz_positive _ C) as Hz.
  destruct (_hr self), (_hz self); simpl in *; try contradiction.
  repeat split; trivial.
Qed.

(** [c exp(-b |z|)] is eventually below any positive bound. *)
Lemma exp_decay (b c eps : R) :
  0 < b -> 0 < c -> 0 < eps ->
  exists Z, forall z, Z < Rabs z -> c * exp (- b * Rabs z) < eps.
Proof.
  intros Hb Hc He. exists (- ln (eps / c) / b). intros z Hz.
  assert (Hq : 0 < eps / c) by now apply Rdiv_lt_0_compat.
  assert (H : - b * Rabs z < ln (eps / c)).
  { apply (Rmult_lt_compat_l b) in Hz; trivial.
    replace (b * (- ln (eps / c) / b)) with (- ln (eps / c)) in Hz
      by (field; lra).
    lra. }
  apply exp_increasing in H. rewrite exp_ln in H by assumption.
  apply (Rmult_lt_compat_l c) in H; trivial.
  replace (c * (eps / c)) with eps in H by (field; lra).
  exact H.
Qed.

(** *** Comparisons and arithmetic of finite doubles, as rewrite rules *)

Lemma fgtb_true (x y : R) : y < x -> fgtb (Fin x) (Fin y) = true.
Proof.
  intros H. unfold fgtb, fltb. destruct (Rlt_dec y x); [reflexivity | lra].
Qed.

Lemma fgtb_false (x y : R) : x <= y -> fgtb (Fin x) (Fin y) = false.
Proof.
  intros H. unfold fgtb, fltb. destruct (Rlt_dec y x); [lra | reflexivity].
Qed.

Lemma fltb_true (x y : R) : x < y -> fltb (Fin x) (Fin y) = true.
Proof. intros H. unfold fltb. destruct (Rlt_dec x y); [reflexivity | lra]. Qed.

Lemma fltb_false (x y : R) : y <= x -> fltb (Fin x) (Fin y) = false.
Proof. intros H. unfold fltb. destruct (Rlt_dec x y); [lra | reflexivity]. Qed.

Lemma fleb_true (x y : R) : x <= y -> fleb (Fin x) (Fin y) = true.
Proof. intros H. unfold fleb. destruct (Rle_dec x y); [reflexivity | lra]. Qed.

Lemma fmul_fin (x y : R) : fmul (Fin x) (Fin y) = Fin (x * y).
Proof. reflexivity. Qed.

Lemma fadd_fin (x y : R) : fadd (Fin x) (Fin y) = Fin (x + y).
Proof. reflexivity. Qed.

Lemma fsub_fin (x y : R) : fsub (Fin x) (Fin y) = Fin (x + - y).
Proof. reflexivity. Qed.

Lemma fneg_fin (x : R) : fneg (Fin x) = Fin (- x).
Proof. reflexivity. Qed.

Lemma fexp_fin (x : R) : fexp (Fin x) = Fin (exp x).
Proof. reflexivity. Qed.

Lemma fabs_fin (x : R) : fabs (Fin x) = Fin (Rabs x).
Proof. reflexivity. Qed.

Create Rewrite HintDb f64.
#[local] Hint Rewrite fmul_fin fadd_fin fsub_fin fneg_fin fexp_fin fabs_fin
  fpow_2 fpow_3 : f64.

(** *** Sums and kernels over the reals *)

Lemma Rsum_paired {A B : Type} (f : A -> R) (g : B -> R)
  (l0 : list A) (l1 : list B) :
  length l0 = length l1 ->
  Rsum (map (fun p => f (fst p) - g (snd p)) (combine l0 l1))
  = Rsum (map f l0) - Rsum (map g l1).
Proof.
  revert l1. induction l0 as [| a l0 IH]; intros [| b l1] H; simpl in *;
    try discriminate; [ring |].
  rewrite IH by lia. ring.
Qed.

Lemma kernel_is_finite_false (b R x : real) :
  b ^ 2 - (x / R) ^ 2 = 0 -> kernel_is_finite b R x = false.
Proof.
  intros H. unfold kernel_is_finite.
  destruct (Req_dec_T (b ^ 2 - (x / R) ^ 2) 0); [reflexivity | contradiction].
Qed.

Lemma kernel_is_finite_true (b R x : real) :
  b ^ 2 - (x / R) ^ 2 <> 0 -> kernel_is_finite b R x = true.
Proof.
  intros H. unfold kernel_is_finite.
  destruct (Req_dec_T (b ^ 2 - (x / R) ^ 2) 0); [contradiction | reflexivity].
Qed.

Lemma R2deriv_kernel_in_the_plane_nonzero (a b R x : real) :
  0 < x -> 0 < R -> 0 < b -> x / R <> b ->
  R2deriv_kernel a b R 0 x <> 0.
Proof.
  intros Hx HR Hb Hne.
  assert (Hu : 0 < x / R) by (apply Rdiv_lt_0_compat; lra).
  unfold R2deriv_kernel. rewrite Rabs_R0, !Rmult_0_r, exp_0.
  unfold Rdiv at 1.
  apply Rmult_integral_contrapositive_currified;
    [apply Rmult_integral_contrapositive_currified;
     [apply Rmult_integral_contrapositive_currified |] |].
  - apply pow_nonzero. lra.
  - apply Rgt_not_eq, exp_pos.
  - lra.
  - apply Rinv_neq_0_compat. intros H. apply Hne. nra.
Qed.

Lemma Rpower_pos (x y : R) : 0 < Rpower x y.
Proof. apply exp_pos. Qed.

Lemma term_pos (p x r d D w : R) :
  0 < p -> 0 < x -> 0 < r -> 0 < d -> 0 < D -> 0 < w ->
  0 < p * x / r * d / D * w.
Proof.
  intros.
  repeat first [apply Rdiv_lt_0_compat | apply Rmult_lt_0_compat]; assumption.
Qed.

(** *** The legacy cutoff *)

(** Once the running minimum is zero, no later square replaces it. *)
Lemma argmin_from_zero (l : list R) (c : R) (i best : nat) (v : R) :
  v = 0 ->
  argmin_from (map (fun x => fpow (fsub (Fin x) (Fin c)) (Fin 2)) l)
    i best (Fin v) = best.
Proof.
  intros ->. revert i. induction l as [| x l IH]; intros i;
    cbn [argmin_from map]; trivial.
  f64. cbn [is_nan orb].
  rewrite fltb_false by apply Rle_0_sqr. apply IH.
Qed.

(** *** The concrete models *)

Lemma mcmahon_pos (nu k : nat) : (0 < k)%nat -> 0 < mcmahon nu k.
Proof.
  intros Hk. unfold mcmahon. apply Rmult_lt_0_compat; [| apply PI_RGT_0].
  assert (1 <= INR k) by (apply (le_INR 1); lia).
  pose proof (pos_INR nu). lra.
Qed.

Lemma reference_disk_constructed (de : bool) : constructed (reference_disk de).
Proof.
  constructor; simpl; try reflexivity; try lra;
    repeat constructor; simpl; lra.
Qed.

(* ================================================================== *)
(** ** The constructor *)

Lemma positive_list (l : list float64) :
  Forall positive l -> exists rs, l = map Fin rs /\ Forall (Rlt 0) rs.
Proof.
  induction 1 as [| x l Hx _ [rs [-> Hrs]]].
  - now exists [].
  - destruct x as [r | | |]; try contradiction.
    exists (r :: rs). split; [reflexivity | now constructor].
Qed.

Lemma length_roll1 (l : list float64) : length (roll1 l) = length l.
Proof.
  unfold roll1. destruct l as [| x l] using rev_ind; [reflexivity |].
  rewrite rev_app_distr, removelast_last. cbn. rewrite length_app. cbn. lia.
Qed.

Lemma differences_total (j : list float64) :
  j <> [] -> exists d, differences j = Ok d.
Proof.
  intros Hj. unfold differences.
  cbn -[broadcast]. rewrite broadcast_same_length by (now rewrite length_roll1).
  destruct j as [| x j]; [contradiction |].
  cbn. destruct (roll1 (x :: j)) eqn:E.
  - apply (f_equal (@length _)) in E. rewrite length_roll1 in E. discriminate.
  - cbn. eauto.
Qed.

Lemma zeros_then_total special nu n :
  bessel_contract special ->
  zeros_then n (jn_zeros special nu n) = Ok (Fin 0 :: jn_zeros special nu n).
Proof.
  intros C. unfold zeros_then. now rewrite (jn_zeros_length _ C), Nat.eqb_refl.
Qed.

(** Hyperbolic functions. *)
Lemma cosh_pos (x : R) : 0 < cosh x.
Proof. unfold cosh. generalize (exp_pos x), (exp_pos (- x)). lra. Qed.

Lemma sinh_pos (x : R) : 0 < x -> 0 < sinh x.
Proof. intros Hx. rewrite <- sinh_0. now apply sinh_lt. Qed.

Lemma tanh_pos (x : R) : 0 < x -> 0 < tanh x.
Proof.
  intros Hx. unfold tanh.
  apply Rdiv_lt_0_compat; [now apply sinh_pos | apply cosh_pos].
Qed.

Lemma exp_opp_inverse (x : R) : exp x * exp (- x) = 1.
Proof. rewrite <- exp_plus, Rplus_opp_r. apply exp_0. Qed.

Lemma tanh_lt (x y : R) : x < y -> tanh x < tanh y.
Proof.
  intros Hxy. unfold tanh.
  assert (Hx := cosh_pos x). assert (Hy := cosh_pos y).
  apply (Rmult_lt_reg_r (cosh x * cosh y)); [now apply Rmult_lt_0_compat |].
  replace (sinh x / cosh x * (cosh x * cosh y)) with (sinh x * cosh y)
    by (field; lra).
  replace (sinh y / cosh y * (cosh x * cosh y)) with (sinh y * cosh x)
    by (field; lra).
  unfold sinh, cosh.
  assert (Ea := exp_opp_inverse x). assert (Eb := exp_opp_inverse y).
  assert (H1 : exp x < exp y) by now apply exp_increasing.
  assert (H2 : exp (- y) < exp (- x)) by (apply exp_increasing; lra).
  generalize (exp_pos x), (exp_pos y), (exp_pos (- x)), (exp_pos (- y)).
  intros. nra.
Qed.

Lemma exp_brackets (t : R) :
  0 < t < 1 ->
  1 + t <= exp t /\ exp t * (1 - t) <= 1
  /\ 1 - t <= exp (- t) /\ exp (- t) * (1 + t) <= 1.
Proof.
  intros Ht. assert (E := exp_opp_inverse t).
  assert (H1 := exp_ineq1_le t). assert (H2 := exp_ineq1_le (- t)).
  assert (P1 := exp_pos t). assert (P2 := exp_pos (- t)).
  repeat split; nra.
Qed.

Lemma sinh_brackets (t : R) :
  0 < t < 1 -> t * (1 - t) <= sinh t /\ sinh t * (1 - t) <= t.
Proof.
  intros Ht. destruct (exp_brackets t Ht) as [H1 [H2 [H3 H4]]].
  assert (P1 := exp_pos t). assert (P2 := exp_pos (- t)).
  unfold sinh. split; nra.
Qed.

Lemma tanh_brackets (t : R) :
  0 < t < 1 -> t * (1 - t) <= tanh t /\ tanh t * (1 - t) <= t.
Proof.
  intros Ht. destruct (exp_brackets t Ht) as [H1 [H2 [H3 H4]]].
  assert (P1 := exp_pos t). assert (P2 := exp_pos (- t)).
  assert (E := exp_opp_inverse t).
  unfold tanh, sinh, cosh.
  set (a := exp t) in *. set (b := exp (- t)) in *.
  replace ((a - b) / 2 / ((a + b) / 2)) with ((a - b) / (a + b))
    by (field; lra).
  split.
  - apply (Rmult_le_reg_r (a + b)); [lra |].
    replace ((a - b) / (a + b) * (a + b)) with (a - b) by (field; lra).
    nra.
  - apply (Rmult_le_reg_r (a + b)); [lra |].
    replace ((a - b) / (a + b) * (1 - t) * (a + b)) with ((a - b) * (1 - t))
      by (field; lra).
    nra.
Qed.

(** The nodes. *)
Lemma de_node_fin (h x : R) :
  0 < h ->
  de_node (Fin h) (Fin x)
  = Fin (PI / h * (h * (x / PI) * tanh (PI / 2 * sinh (h * (x / PI))))).
Proof.
  intros Hh. assert (Hpi := PI_RGT_0). unfold de_node.
  now rewrite !fdiv_fin by lra.
Qed.

Lemma de_node_scaled (h x : R) : 0 < h -> 0 < x -> 0 < h * (x / PI).
Proof.
  intros Hh Hx. assert (Hpi := PI_RGT_0).
  apply Rmult_lt_0_compat; [lra | apply Rdiv_lt_0_compat; lra].
Qed.

Lemma de_node_positive (h x : R) :
  0 < h -> 0 < x -> positive (de_node (Fin h) (Fin x)).
Proof.
  intros Hh Hx. assert (Hpi := PI_RGT_0).
  rewrite de_node_fin by assumption. cbn.
  assert (Ht := de_node_scaled h x Hh Hx).
  apply Rmult_lt_0_compat; [apply Rdiv_lt_0_compat; lra |].
  apply Rmult_lt_0_compat; [exact Ht |].
  apply tanh_pos, Rmult_lt_0_compat; [lra | now apply sinh_pos].
Qed.

Lemma de_node_increasing (h x y : R) :
  0 < h -> 0 < x -> x < y ->
  fltb (de_node (Fin h) (Fin x)) (de_node (Fin h) (Fin y)) = true.
Proof.
  intros Hh Hx Hxy. assert (Hpi := PI_RGT_0).
  rewrite !de_node_fin by assumption. apply fltb_true.
  assert (Ht := de_node_scaled h x Hh Hx).
  assert (Htt : h * (x / PI) < h * (y / PI)).
  { apply Rmult_lt_compat_l; [lra |].
    apply Rmult_lt_compat_r; [apply Rinv_0_lt_compat; lra | lra]. }
  assert (Hs := sinh_pos _ Ht). assert (Hss := sinh_lt _ _ Htt).
  assert (Hu : 0 < tanh (PI / 2 * sinh (h * (x / PI)))).
  { apply tanh_pos, Rmult_lt_0_compat; lra. }
  assert (Huu : tanh (PI / 2 * sinh (h * (x / PI)))
                < tanh (PI / 2 * sinh (h * (y / PI)))).
  { apply tanh_lt, Rmult_lt_compat_l; lra. }
  apply Rmult_lt_compat_l; [apply Rdiv_lt_0_compat; lra |].
  apply Rmult_gt_0_lt_compat; lra.
Qed.

Lemma increasing_reals (l : list R) :
  increasing (map Fin l) -> StronglySorted Rlt l.
Proof.
  induction l as [| x l IH]; intros Hs; [constructor |].
  inversion Hs as [| ? ? Hl Hx]; subst.
  constructor; [auto |].
  rewrite Forall_map in Hx. revert Hx. apply Forall_impl.
  intros y Hy. cbv beta in Hy.
  destruct (Rlt_dec x y) as [Hlt | Hge]; [exact Hlt |].
  rewrite fltb_false in Hy by lra. discriminate.
Qed.

Lemma de_nodes_increasing (h : R) (l : list R) :
  0 < h -> Forall (Rlt 0) l -> StronglySorted Rlt l ->
  increasing (map (fun x => de_node (Fin h) (Fin x)) l).
Proof.
  intros Hh. induction l as [| x l IH]; intros Hp Hs; [constructor |].
  inversion Hp; subst. inversion Hs as [| ? ? Hl Hx]; subst.
  constructor; [now apply IH |].
  apply Forall_map. revert Hx. apply Forall_impl.
  intros y Hy. now apply de_node_increasing.
Qed.

(** The weights. *)
Lemma sgn_scaled (c w : R) : 0 < c -> sgn (c * w) = sgn w.
Proof.
  intros Hc. destruct (total_order_T w 0) as [[Hlt | Heq] | Hgt].
  - rewrite (sgn_neg w Hlt). apply sgn_neg. nra.
  - rewrite (sgn_zero w Heq). apply sgn_zero. subst. ring.
  - rewrite (sgn_pos w Hgt). apply sgn_pos. nra.
Qed.

Lemma de_weight_fin (Jnext J : float64 -> float64) (h x v w : R) :
  0 < h -> 0 < x -> Jnext (Fin x) = Fin v -> v <> 0 ->
  J (de_node (Fin h) (Fin x)) = Fin w ->
  exists c, 0 < c /\ de_weight Jnext J (Fin h) (Fin x) = Fin (c * w).
Proof.
  intros Hh Hx Hv Hnz Hw. assert (Hpi := PI_RGT_0).
  assert (Ht := de_node_scaled h x Hh Hx).
  unfold de_weight. rewrite Hw.
  rewrite !fdiv_fin by lra. cbn [fmul].
  replace (PI * (x / PI)) with x by (field; lra).
  rewrite Hv, fpow_2. cbn [fmul fsinh fcosh fadd].
  set (t := h * (x / PI)) in *.
  assert (Hden : 0 < cosh (PI * sinh t) + 1).
  { generalize (cosh_pos (PI * sinh t)). lra. }
  assert (Hnum : 0 < sinh (PI * sinh t) + PI * t * cosh t).
  { apply Rplus_lt_0_compat.
    - apply sinh_pos, Rmult_lt_0_compat; [lra | now apply sinh_pos].
    - apply Rmult_lt_0_compat; [nra | apply cosh_pos]. }
  assert (Hxv : 0 < x * (v * v)) by (apply Rmult_lt_0_compat; nra).
  rewrite !fdiv_fin by lra. cbn [fmul].
  exists (2 / (x * (v * v))
          * ((sinh (PI * sinh t) + PI * t * cosh t) / (cosh (PI * sinh t) + 1))).
  split.
  - apply Rmult_lt_0_compat; apply Rdiv_lt_0_compat; lra.
  - f_equal. ring.
Qed.

Lemma de_weight_sign (Jnext J : float64 -> float64) (h x : R) :
  0 < h -> 0 < x ->
  finite (Jnext (Fin x)) -> Jnext (Fin x) <> Fin 0 ->
  (forall y, finite (J (Fin y))) ->
  same_sign (de_weight Jnext J (Fin h) (Fin x)) (J (de_node (Fin h) (Fin x))).
Proof.
  intros Hh Hx Hfin Hnz HJ.
  destruct (Jnext (Fin x)) as [v | | |] eqn:Hv; try contradiction.
  assert (Hv0 : v <> 0) by (intros ->; now apply Hnz).
  generalize (HJ (PI / h * (h * (x / PI) * tanh (PI / 2 * sinh (h * (x / PI)))))).
  rewrite <- de_node_fin by assumption.
  destruct (J (de_node (Fin h) (Fin x))) as [w | | |] eqn:Hw; try contradiction.
  intros _.
  destruct (de_weight_fin Jnext J h x v w Hh Hx Hv Hv0 Hw) as [c [Hc ->]].
  cbn. now apply sgn_scaled.
Qed.

Lemma same_sign_finite (w j : float64) : same_sign w j -> finite w.
Proof. destruct w; simpl; trivial; contradiction. Qed.

Lemma Forall2_map_same {A B C : Type} (P : B -> C -> Prop)
  (f : A -> B) (g : A -> C) (l : list A) :
  Forall (fun a => P (f a) (g a)) l -> Forall2 P (map f l) (map g l).
Proof. induction 1; cbn; constructor; trivial. Qed.

(** [__init__] returns, and what it returns satisfies the invariant the
    evaluation methods rely on; its tables are the nodes and weights of
    the zeros [jn_zeros] gives. *)
Theorem init_establishes_the_invariant special leggauss Kepler
  hr hz kmaxFac glorder de de_h de_n :
  bessel_contract special -> positive hr -> positive hz -> positive de_h ->
  exists self,
    __init__ special leggauss Kepler hr hz kmaxFac glorder de de_h de_n
    = Ok self
    /\ constructed self
    /\ _hr self = hr /\ _hz self = hz /\ _de self = de /\ _de_n self = de_n
    /\ _de_j0_xs self = map (de_node de_h) (jn_zeros special 0 de_n)
    /\ _de_j0_weights self
       = map (de_weight (j1 special) (j0 special) de_h)
           (jn_zeros special 0 de_n)
    /\ _de_j1_xs self = map (de_node de_h) (jn_zeros special 1 de_n)
    /\ _de_j1_weights self
       = map (de_weight (jv special 2) (j1 special) de_h)
           (jn_zeros special 1 de_n).
Proof.
  intros C Hr Hz Hh.
  destruct hr as [hr | | |]; try contradiction.
  destruct hz as [hz | | |]; try contradiction.
  destruct de_h as [h | | |]; try contradiction.
  cbn in Hr, Hz, Hh.
  unfold __init__.
  destruct (leggauss glorder) as [glx glw].
  cbv zeta.
  rewrite !(zeros_then_total _ _ _ C).
  destruct (differences_total (Fin 0 :: jn_zeros special 0 100))
    as [d0 D0]; [discriminate |].
  destruct (differences_total (Fin 0 :: jn_zeros special 1 100))
    as [d1 D1]; [discriminate |].
  destruct (differences_total (Fin 0 :: jn_zeros special 2 100))
    as [d2 D2]; [discriminate |].
  cbn [bind]. rewrite D0. cbn [bind]. rewrite D1. cbn [bind]. rewrite D2.
  cbn [bind].
  assert (P0 := jn_zeros_positive _ C 0%nat de_n).
  assert (P1 := jn_zeros_positive _ C 1%nat de_n).
  assert (I0 := j1_at_zeros_of_j0 _ C de_n).
  assert (I1 := j2_at_zeros_of_j1 _ C de_n).
  assert (L0 := jn_zeros_length _ C 0%nat de_n).
  assert (L1 := jn_zeros_length _ C 1%nat de_n).
  destruct (positive_list _ P0) as [z0 [E0 Q0]].
  destruct (positive_list _ P1) as [z1 [E1 Q1]].
  rewrite E0, E1 in *.
  rewrite length_map in L0, L1.
  assert (Hpi := PI_RGT_0).
  assert (Ha : 0 < 1 / hr) by (apply Rdiv_lt_0_compat; lra).
  assert (Hb : 0 < 1 / hz) by (apply Rdiv_lt_0_compat; lra).
  assert (Ha2 : 1 / hr * (1 / hr) <> 0) by nra.
  unfold _de_psiprime, _de_psi.
  repeat (progress (rewrite ?fpow_2; autorewrite with f64;
                    rewrite ?float_truediv_nonzero by (apply is_zero_fin; lra);
                    rewrite ?fdiv_fin by lra; np)).
  eexists. split; [reflexivity |].
  assert (Hh' : Fin (PI / h) = fdiv (Fin PI) (Fin h))
    by (now rewrite fdiv_fin by lra).
  assert (H2 : Fin (PI / 2) = fdiv (Fin PI) (Fin 2))
    by (now rewrite fdiv_fin by lra).
  rewrite Hh', H2.
  repeat split; try reflexivity; np_simpl; rewrite ?map_map, ?length_map;
    trivial.
  - change (Forall positive (map (fun x => de_node (Fin h) (Fin x)) z0)).
    apply Forall_map. revert Q0. apply Forall_impl.
    intros x. now apply de_node_positive.
  - change (Forall positive (map (fun x => de_node (Fin h) (Fin x)) z1)).
    apply Forall_map. revert Q1. apply Forall_impl.
    intros x. now apply de_node_positive.
  - change (Forall finite
              (map (fun x => de_weight (j1 special) (j0 special)
                               (Fin h) (Fin x)) z0)).
    apply Forall_map, Forall_forall. intros x Hx.
    apply (same_sign_finite _ (j0 special (de_node (Fin h) (Fin x)))).
    apply de_weight_sign; trivial.
    + rewrite Forall_forall in Q0. now apply Q0.
    + apply (j1_finite _ C).
    + apply I0. apply in_map_iff. eauto.
    + apply (j0_finite _ C).
  - change (Forall finite
              (map (fun x => de_weight (jv special 2) (j1 special)
                               (Fin h) (Fin x)) z1)).
    apply Forall_map, Forall_forall. intros x Hx.
    apply (same_sign_finite _ (j1 special (de_node (Fin h) (Fin x)))).
    apply de_weight_sign; trivial.
    + rewrite Forall_forall in Q1. now apply Q1.
    + apply (j2_finite _ C).
    + apply I1. apply in_map_iff. eauto.
    + apply (j1_finite _ C).
Qed.

(** The stand-in for [scipy.special] satisfies the contract. *)
Lemma cos_integer_multiple (k : nat) : cos ((INR k - 1) * PI) <> 0.
Proof.
  intros H. apply cos_eq_0_0 in H. destruct H as [m Hm].
  assert (Hpi := PI_RGT_0).
  assert (E : INR k - 1 = IZR m + 1 / 2).
  { apply (Rmult_eq_reg_r PI); [| lra]. rewrite Hm. field. }
  rewrite INR_IZR_INZ in E.
  assert (E' : IZR (2 * Z.of_nat k - 2) = IZR (2 * m + 1)).
  { rewrite minus_IZR, plus_IZR, !mult_IZR. lra. }
  apply eq_IZR in E'. lia.
Qed.

Lemma hankel_next_order_nonzero (nu k : nat) :
  (0 < k)%nat -> hankel (S nu) (Fin (mcmahon nu k)) <> Fin 0.
Proof.
  intros Hk. assert (Hx := mcmahon_pos nu k Hk). assert (Hpi := PI_RGT_0).
  unfold hankel. intros H. injection H as H.
  apply Rmult_integral in H. destruct H as [H | H].
  - apply sqrt_eq_0 in H.
    + assert (0 < 2 / (PI * mcmahon nu k)); [| lra].
      apply Rdiv_lt_0_compat; [lra | now apply Rmult_lt_0_compat].
    + apply Rlt_le, Rdiv_lt_0_compat; [lra | now apply Rmult_lt_0_compat].
  - apply (cos_integer_multiple k).
    replace ((INR k - 1) * PI)
      with (mcmahon nu k - INR (S nu) * PI / 2 - PI / 4); [exact H |].
    unfold mcmahon. rewrite S_INR. field.
Qed.

Lemma mcmahon_lt (nu j k : nat) : (j < k)%nat -> mcmahon nu j < mcmahon nu k.
Proof.
  intros H. apply lt_INR in H. assert (Hpi := PI_RGT_0).
  unfold mcmahon. apply Rmult_lt_compat_r; lra.
Qed.

Lemma mcmahon_table_increasing (nu n s : nat) :
  increasing (map (fun k => Fin (mcmahon nu k)) (seq s n)).
Proof.
  revert s. induction n as [| n IH]; intros s; cbn; constructor; [apply IH |].
  apply Forall_map, Forall_forall. intros k Hk. apply in_seq in Hk.
  apply fltb_true, mcmahon_lt. lia.
Qed.

Lemma asymptotic_special_contract : bessel_contract asymptotic_special.
Proof.
  assert (Z : forall nu n x,
             In (Fin x) (jn_zeros asymptotic_special nu n) ->
             exists k, (0 < k)%nat /\ x = mcmahon nu k).
  { intros nu n x H. cbn in H. apply in_map_iff in H.
    destruct H as [k [E Hk]]. apply in_seq in Hk.
    exists k. split; [lia | congruence]. }
  constructor; cbn [jn_zeros j0 j1 jv asymptotic_special].
  - intros nu n. now rewrite length_map, length_seq.
  - intros nu n. apply Forall_map, Forall_forall. intros k Hk.
    apply in_seq in Hk. cbn. apply mcmahon_pos. lia.
  - intros nu n. apply mcmahon_table_increasing.
  - intros x. exact I.
  - intros x. exact I.
  - intros x. exact I.
  - intros n x H. destruct (Z _ _ _ H) as [k [Hk ->]].
    now apply (hankel_next_order_nonzero 0).
  - intros n x H. destruct (Z _ _ _ H) as [k [Hk ->]].
    now apply (hankel_next_order_nonzero 1).
Qed.

(* ================================================================== *)
(** ** Reflection in the plane: the legacy strategy *)

Lemma neg_neg_ (e : E) : (- - e)%py = e.
Proof.
  destruct e as [[x | x | l] | e]; cbn; trivial; f_equal; f_equal.
  - apply fneg_fneg.
  - apply fneg_fneg.
  - rewrite map_map. rewrite <- (map_id l) at 2. apply map_ext, fneg_fneg.
Qed.

Lemma neg_bind {A : Type} (e : result A) (k : A -> E) :
  (- (x <- e ;; k x))%py = (x <- e ;; (- k x)%py).
Proof. destruct e; reflexivity. Qed.

Lemma bind_ext {A B : Type} (e : result A) (k1 k2 : A -> result B) :
  (forall x, k1 x = k2 x) -> (x <- e ;; k1 x) = (x <- e ;; k2 x).
Proof. intros H. destruct e; cbn; auto. Qed.

Lemma neg_if (b : bool) (e1 e2 : E) :
  (- (if b then e1 else e2))%py = if b then (- e1)%py else (- e2)%py.
Proof. now destruct b. Qed.

Lemma inf_times_opp (i : float64) (r : R) :
  inf_times i (- r) = fneg (inf_times i r).
Proof.
  unfold inf_times. destruct (total_order_T r 0) as [[Hlt | Heq] | Hgt].
  - rewrite (sgn_neg r Hlt), (sgn_pos (- r)) by lra. now rewrite fneg_fneg.
  - rewrite (sgn_zero r Heq), (sgn_zero (- r)) by lra. reflexivity.
  - rewrite (sgn_pos r Hgt), (sgn_neg (- r)) by lra. reflexivity.
Qed.

Lemma inf_times_fneg (i : float64) (r : R) :
  inf_times (fneg i) r = fneg (inf_times i r).
Proof. unfold inf_times. destruct (sgn r); trivial. Qed.

Lemma fmul_fneg_r (a b : float64) : fmul a (fneg b) = fneg (fmul a b).
Proof.
  destruct a as [x | | |], b as [y | | |]; cbn [fmul fneg]; trivial;
    try apply inf_times_opp; try apply inf_times_fneg;
    try (symmetry; apply inf_times_fneg).
  - f_equal. ring.
  - now rewrite <- inf_times_fneg.
  - now rewrite <- inf_times_fneg.
Qed.

Lemma fmul_fneg_l (a b : float64) : fmul (fneg a) b = fneg (fmul a b).
Proof.
  destruct a as [x | | |], b as [y | | |]; cbn [fmul fneg]; trivial;
    try apply inf_times_opp; try apply inf_times_fneg;
    try (symmetry; apply inf_times_fneg).
  - f_equal. ring.
  - now rewrite <- inf_times_fneg.
  - now rewrite <- inf_times_fneg.
Qed.

(** The two branches of the sign rule are opposite. *)
Lemma mul_opposite (c : R) (S : E) :
  (Ok (PyFloat (Fin c)) * S)%py = (- (Ok (PyFloat (Fin (- c))) * S))%py.
Proof.
  assert (H : forall x, fmul (Fin c) x = fneg (fmul (Fin (- c)) x)).
  { intros x. change (Fin (- c)) with (fneg (Fin c)).
    now rewrite fmul_fneg_l, fneg_fneg. }
  destruct S as [[x | x | l] | e]; cbn -[fmul fneg]; trivial;
    rewrite ?map_map; f_equal; f_equal; trivial.
  apply map_ext, H.
Qed.

(** Closure of [vanishing]. *)
Lemma zero_or_nan_fneg (x : float64) : zero_or_nan x -> fneg x = x.
Proof. intros [-> | ->]; cbn; trivial. f_equal. ring. Qed.

Lemma vanishing_neg (e : E) : vanishing e -> (- e)%py = e.
Proof.
  destruct e as [[x | x | l] | e]; cbn; trivial; intros H;
    f_equal; f_equal; try now apply zero_or_nan_fneg.
  rewrite <- (map_id l) at 2. apply map_ext_in. intros x Hx.
  rewrite Forall_forall in H. now apply zero_or_nan_fneg, H.
Qed.

Lemma broadcast_vanishing_r (f : float64 -> float64 -> float64)
  (a b l : list float64) :
  (forall x y, zero_or_nan y -> zero_or_nan (f x y)) ->
  Forall zero_or_nan b -> broadcast f a b = Ok l -> Forall zero_or_nan l.
Proof.
  intros Hf Hb. unfold broadcast.
  assert (Hz : Forall zero_or_nan (zipWith f a b)).
  { unfold zipWith. apply Forall_map, Forall_forall. intros [x y] Hxy.
    apply in_combine_r in Hxy. rewrite Forall_forall in Hb.
    cbn. apply Hf, Hb, Hxy. }
  assert (Hm : Forall zero_or_nan (map (f (hd NaN a)) b)).
  { apply Forall_map. revert Hb. apply Forall_impl. intros y. apply Hf. }
  assert (Hh : zero_or_nan (hd NaN b)).
  { destruct Hb; cbn; [now left | trivial]. }
  assert (Hs : Forall zero_or_nan (map (fun x => f x (hd NaN b)) a)).
  { apply Forall_map, Forall_forall. intros x _. now apply Hf. }
  destruct (length a =? length b)%nat; [intros [= <-]; exact Hz |].
  destruct (length a =? 1)%nat; [intros [= <-]; exact Hm |].
  destruct (length b =? 1)%nat; [intros [= <-]; exact Hs | discriminate].
Qed.

Lemma broadcast_vanishing_l (f : float64 -> float64 -> float64)
  (a b l : list float64) :
  (forall x y, zero_or_nan x -> zero_or_nan (f x y)) ->
  Forall zero_or_nan a -> broadcast f a b = Ok l -> Forall zero_or_nan l.
Proof.
  intros Hf Ha. unfold broadcast.
  assert (Hz : Forall zero_or_nan (zipWith f a b)).
  { unfold zipWith. apply Forall_map, Forall_forall. intros [x y] Hxy.
    apply in_combine_l in Hxy. rewrite Forall_forall in Ha.
    cbn. apply Hf, Ha, Hxy. }
  assert (Hh : zero_or_nan (hd NaN a)).
  { destruct Ha; cbn; [now left | trivial]. }
  assert (Hm : Forall zero_or_nan (map (f (hd NaN a)) b)).
  { apply Forall_map, Forall_forall. intros y _. now apply Hf. }
  assert (Hs : Forall zero_or_nan (map (fun x => f x (hd NaN b)) a)).
  { apply Forall_map. revert Ha. apply Forall_impl. intros x Hx. now apply Hf. }
  destruct (length a =? length b)%nat; [intros [= <-]; exact Hz |].
  destruct (length a =? 1)%nat; [intros [= <-]; exact Hm |].
  destruct (length b =? 1)%nat; [intros [= <-]; exact Hs | discriminate].
Qed.

Lemma vanishing_mul_r (X e : E) : vanishing e -> vanishing (X * e)%py.
Proof.
  assert (Hf : forall x y, zero_or_nan y -> zero_or_nan (fmul x y))
    by (intros x y; apply fmul_zero_or_nan_r).
  destruct X as [[x | x | l1] | ex], e as [[y | y | l2] | ee]; cbn;
    trivial; intros H; try now apply Hf.
  - apply Forall_map. revert H. apply Forall_impl. intros y. apply Hf.
  - apply Forall_map. revert H. apply Forall_impl. intros y. apply Hf.
  - apply Forall_map, Forall_forall. intros z _. now apply Hf.
  - apply Forall_map, Forall_forall. intros z _. now apply Hf.
  - destruct (broadcast fmul l1 l2) as [l | err] eqn:Eb; cbn; trivial.
    now apply (broadcast_vanishing_r fmul l1 l2).
Qed.

Lemma vanishing_truediv (e D : E) : vanishing e -> vanishing (e / D)%py.
Proof.
  assert (Hf : forall x y, zero_or_nan x -> zero_or_nan (fdiv x y))
    by (intros x y; apply fdiv_zero_or_nan).
  destruct e as [[x | x | l1] | ee], D as [[y | y | l2] | ed]; cbn;
    trivial; intros H; try now apply Hf.
  - unfold float_truediv. destruct (is_zero y); cbn; trivial. now apply Hf.
  - apply Forall_map, Forall_forall. intros z _. now apply Hf.
  - apply Forall_map, Forall_forall. intros z _. now apply Hf.
  - apply Forall_map. revert H. apply Forall_impl. intros z Hz. now apply Hf.
  - apply Forall_map. revert H. apply Forall_impl. intros z Hz. now apply Hf.
  - destruct (broadcast fdiv l1 l2) as [l | err] eqn:Eb; cbn; trivial.
    now apply (broadcast_vanishing_l fdiv l1 l2).
Qed.

Lemma fadd_zero_or_nan (x y : float64) :
  zero_or_nan x -> zero_or_nan y -> zero_or_nan (fadd x y).
Proof.
  intros [-> | ->] [-> | ->]; cbn; try (now left).
  apply zero_or_nan_fin. ring.
Qed.

Lemma fsum_zero_or_nan (l : list float64) :
  Forall zero_or_nan l -> zero_or_nan (fsum l).
Proof.
  unfold fsum. assert (H0 : zero_or_nan (Fin 0)) by now right.
  revert H0. generalize (Fin 0). induction l as [| x l IH]; intros acc Hacc Hl.
  - exact Hacc.
  - inversion Hl; subst. cbn. apply IH; [now apply fadd_zero_or_nan | trivial].
Qed.

Lemma vanishing_sum (e : E) : vanishing e -> vanishing (numpy_sum e).
Proof.
  destruct e as [[x | x | l] | e]; cbn -[fsum]; trivial; intros H;
    apply fsum_zero_or_nan; auto.
Qed.

(** In the plane the two exponentials of the vertical kernels cancel. *)
Lemma vanishing_in_the_plane (ks : pyobj) (b : float64) :
  vanishing (numpy_exp (- Ok ks * numpy_fabs (Ok (PyFloat (Fin 0))))
             - numpy_exp (- float_ b * numpy_fabs (Ok (PyFloat (Fin 0)))))%py.
Proof.
  assert (H : forall k, zero_or_nan
                          (fsub (fexp (fmul (fneg k) (Fin (Rabs 0))))
                             (fexp (fmul (fneg b) (Fin (Rabs 0))))))
    by (intros k; apply fsub_exp_zero, Rabs_R0).
  destruct ks as [k | k | l]; cbn -[fsub fexp fmul fneg]; try apply H.
  rewrite !map_map. apply Forall_map, Forall_forall. intros k _. apply H.
Qed.

Lemma prefactor_up (a b : R) :
  (#2 * numpy_pi * float_ (Fin a) * float_ (Fin b))%py
  = Ok (PyFloat (Fin (2 * PI * a * b))).
Proof. reflexivity. Qed.

Lemma prefactor_down (a b : R) :
  (- #2 * numpy_pi * float_ (Fin a) * float_ (Fin b))%py
  = Ok (PyFloat (Fin (- (2 * PI * a * b)))).
Proof. cbn. do 3 f_equal. ring. Qed.

Lemma numpy_fabs_reflected (z : R) :
  numpy_fabs (Ok (PyFloat (Fin (- z)))) = numpy_fabs (Ok (PyFloat (Fin z))).
Proof. cbn. now rewrite Rabs_Ropp. Qed.

Lemma call_kp_reflected (self : DoubleExponentialDiskPotential)
  (method : KeplerPotential -> pyobj -> pyobj -> E) (R z z' : pyobj) :
  (forall kp, _kp self = Some kp -> method kp R z' = method kp R z) ->
  call_kp self method R z' = call_kp self method R z.
Proof. unfold call_kp. destruct (_kp self); auto. Qed.

Lemma call_kp_opposite (self : DoubleExponentialDiskPotential)
  (method : KeplerPotential -> pyobj -> pyobj -> E) (R z z' : pyobj) :
  (forall kp, _kp self = Some kp -> method kp R z' = (- method kp R z)%py) ->
  call_kp self method R z' = (- call_kp self method R z)%py.
Proof. unfold call_kp. destruct (_kp self); auto. Qed.

Lemma fleb_false (x y : R) : y < x -> fleb (Fin x) (Fin y) = false.
Proof.
  intros H. unfold fleb. destruct (Rle_dec x y); [lra | reflexivity].
Qed.

Section Legacy.

Variable special : scipy_special.
Variable uninitialised : float64.
Variable self : DoubleExponentialDiskPotential.
Hypothesis Hde : _de self = false.
Hypothesis Hkp : symmetric_fallback self.

Lemma evaluate_legacy_even (R : float64) (z : real) :
  _evaluate special uninitialised self (PyFloat R) (PyFloat (Fin (- z)))
  = _evaluate special uninitialised self (PyFloat R) (PyFloat (Fin z)).
Proof.
  unfold _evaluate. rewrite Hde. np_simpl. cbn [fabs]. rewrite Rabs_Ropp.
  destruct (fleb R (Fin 6)); np_simpl; [reflexivity |].
  rewrite (call_kp_reflected self __call__ _ (NdArray [Fin z])
             (NdArray [Fin (- z)])); [reflexivity |].
  intros kp E. unfold symmetric_fallback in Hkp. rewrite E in Hkp.
  apply (kp_call_even _ Hkp).
Qed.

Lemma z2deriv_legacy_even (R : float64) (z : real) :
  _z2deriv special self (PyFloat R) (PyFloat (Fin (- z)))
  = _z2deriv special self (PyFloat R) (PyFloat (Fin z)).
Proof.
  unfold _z2deriv, over_arrays. rewrite Hde. cbv beta iota zeta.
  rewrite numpy_fabs_reflected.
  rewrite (call_kp_reflected self z2deriv _ (PyFloat (Fin z))
             (PyFloat (Fin (- z)))); [reflexivity |].
  intros kp E. unfold symmetric_fallback in Hkp. rewrite E in Hkp.
  apply (kp_z2deriv_even _ Hkp).
Qed.

Hypothesis C : constructed self.

Lemma zforce_legacy_odd (R : float64) (z : real) :
  _zforce special self (PyFloat R) (PyFloat (Fin (- z)))
  = (- _zforce special self (PyFloat R) (PyFloat (Fin z)))%py.
Proof.
  destruct (constructed_alpha _ C) as [Ha _].
  destruct (constructed_beta _ C) as [Hb _].
  unfold _zforce, over_arrays. rewrite Hde, Ha, Hb. cbv beta iota zeta.
  rewrite numpy_fabs_reflected.
  rewrite neg_bind. apply bind_ext. intros far.
  rewrite neg_bind. apply bind_ext. intros far'.
  destruct far'.
  { apply call_kp_opposite. intros kp E.
    unfold symmetric_fallback in Hkp. rewrite E in Hkp.
    apply (kp_zforce_odd _ Hkp). }
  rewrite neg_bind. apply bind_ext. intros small.
  rewrite neg_bind. apply bind_ext. intros idx.
  rewrite neg_bind. apply bind_ext. intros ks.
  rewrite neg_bind. apply bind_ext. intros weights.
  rewrite prefactor_up, prefactor_down, neg_bind.
  destruct (total_order_T z 0) as [[Hlt | Heq] | Hgt].
  - apply bind_ext. intros evalInt. cbn [gt_ lit bind compare_].
    rewrite (fgtb_true (- z) 0), (fgtb_false z 0) by lra.
    rewrite (mul_opposite (2 * PI * alpha_of self * beta_of self)).
    now rewrite neg_neg_.
  - subst z. replace (- 0) with 0 in * by ring.
    cbn [gt_ lit bind compare_]. rewrite fgtb_irrefl.
    match goal with
    | |- bind ?e _ = _ =>
        assert (V : vanishing e)
          by (apply vanishing_truediv, vanishing_mul_r,
                vanishing_in_the_plane);
        destruct e as [evalInt | err]; [| reflexivity]
    end.
    cbn [bind]. symmetry.
    now apply vanishing_neg, vanishing_mul_r, vanishing_sum, vanishing_mul_r.
  - apply bind_ext. intros evalInt. cbn [gt_ lit bind compare_].
    rewrite (fgtb_false (- z) 0), (fgtb_true z 0) by lra.
    apply mul_opposite.
Qed.

Lemma Rzderiv_legacy_odd (R : float64) (z : real) :
  _Rzderiv special self (PyFloat R) (PyFloat (Fin (- z)))
  = (- _Rzderiv special self (PyFloat R) (PyFloat (Fin z)))%py.
Proof.
  destruct (constructed_alpha _ C) as [Ha _].
  destruct (constructed_beta _ C) as [Hb _].
  unfold _Rzderiv, over_arrays. rewrite Hde, Ha, Hb. cbv beta iota zeta.
  rewrite numpy_fabs_reflected.
  rewrite neg_bind. apply bind_ext. intros far.
  destruct far.
  { apply call_kp_opposite. intros kp E.
    unfold symmetric_fallback in Hkp. rewrite E in Hkp.
    apply (kp_Rzderiv_odd _ Hkp). }
  rewrite neg_bind. apply bind_ext. intros small.
  rewrite neg_bind. apply bind_ext. intros idx.
  rewrite neg_bind. apply bind_ext. intros ks.
  rewrite neg_bind. apply bind_ext. intros weights.
  rewrite prefactor_up, prefactor_down, neg_bind.
  destruct (total_order_T z 0) as [[Hlt | Heq] | Hgt].
  - apply bind_ext. intros evalInt. cbn [ge_ lit bind compare_].
    rewrite (fleb_true 0 (- z)), (fleb_false 0 z) by lra.
    rewrite (mul_opposite (2 * PI * alpha_of self * beta_of self)).
    now rewrite neg_neg_.
  - subst z. replace (- 0) with 0 in * by ring.
    cbn [ge_ lit bind compare_]. rewrite fleb_true by lra.
    match goal with
    | |- bind ?e _ = _ =>
        assert (V : vanishing e)
          by (apply vanishing_truediv, vanishing_mul_r,
                vanishing_in_the_plane);
        destruct e as [evalInt | err]; [| reflexivity]
    end.
    cbn [bind]. symmetry.
    now apply vanishing_neg, vanishing_mul_r, vanishing_sum, vanishing_mul_r.
  - apply bind_ext. intros evalInt. cbn [ge_ lit bind compare_].
    rewrite (fleb_false 0 (- z)), (fleb_true 0 z) by lra.
    apply mul_opposite.
Qed.

End Legacy.

(** The point mass is symmetric about the plane. *)
Lemma mul_fneg (u : float64) (S : E) :
  (Ok (PyFloat (fneg u)) * S)%py = (- (Ok (PyFloat u) * S))%py.
Proof.
  destruct S as [[x | x | l] | e]; cbn -[fmul fneg]; trivial;
    rewrite ?map_map; f_equal; f_equal; try apply fmul_fneg_l.
  apply map_ext. intros x. apply fmul_fneg_l.
Qed.

Lemma square_reflected (z : R) :
  (Ok (PyFloat (Fin (- z))) ** #2)%py = (Ok (PyFloat (Fin z)) ** #2)%py.
Proof.
  cbn -[float_pow]. rewrite !float_pow_2, !fpow_2. cbn. do 3 f_equal. ring.
Qed.

Lemma square_reflected_array (z : R) :
  (Ok (NdArray [Fin (- z)]) ** #2)%py = (Ok (NdArray [Fin z]) ** #2)%py.
Proof. cbn -[fpow]. rewrite !fpow_2. do 4 f_equal. ring. Qed.

Lemma point_mass_parity (M : float64) : kepler_parity (point_mass M).
Proof.
  constructor; intros R z; cbn [point_mass __call__ z2deriv zforce Rzderiv].
  - now rewrite square_reflected_array.
  - now rewrite square_reflected.
  - rewrite square_reflected.
    change (- float_ M * Ok (PyFloat (Fin (- z))))%py
      with (Ok (PyFloat (fmul (fneg M) (fneg (Fin z))))).
    rewrite fmul_fneg_r. apply mul_fneg.
  - rewrite square_reflected.
    change (- #3 * float_ M * Ok (PyFloat R) * Ok (PyFloat (Fin (- z))))%py
      with (Ok (PyFloat (fmul (fmul (fmul (fneg (Fin 3)) M) R)
                           (fneg (Fin z))))).
    rewrite fmul_fneg_r. apply mul_fneg.
Qed.


(* ================================================================== *)
(** ** The double-exponential strategy at a scalar query *)

Section Evaluation.

Variable special : scipy_special.
Variable uninitialised : float64.

(** Unfolds a method of a constructed model run with the double-exponential
    strategy and evaluates it as far as the tables allow. *)
Ltac de_method C Hde :=
  let Ha := fresh "Ha" in let Hapos := fresh "Hapos" in
  let Hb := fresh "Hb" in let Hbpos := fresh "Hbpos" in
  let Hx0 := fresh "Hx0" in let Hw0 := fresh "Hw0" in
  let Hlen0 := fresh "Hlen0" in let Hpos0 := fresh "Hpos0" in
  let Hx1 := fresh "Hx1" in let Hw1 := fresh "Hw1" in
  let Hlen1 := fresh "Hlen1" in let Hpos1 := fresh "Hpos1" in
  let Hlen := fresh "Hlen" in
  destruct (constructed_alpha _ C) as [Ha Hapos];
  destruct (constructed_beta _ C) as [Hb Hbpos];
  destruct (constructed_tables0 _ C) as (Hx0 & Hw0 & Hlen0 & Hpos0);
  destruct (constructed_tables1 _ C) as (Hx1 & Hw1 & Hlen1 & Hpos1);
  pose proof (constructed_same_length _ C) as Hlen;
  unfold _evaluate, _Rforce, _zforce, _R2deriv, _z2deriv, _Rzderiv,
    _dens, _surfdens;
  rewrite ?Hde, ?Ha, ?Hb, ?Hx0, ?Hw0, ?Hx1, ?Hw1;
  np;
  rewrite ?fpow_2, ?fpow_3;
  rewrite ?float_truediv_nonzero
    by first [ apply is_zero_fin; lra
             | apply is_zero_fin_square; lra
             | apply is_zero_fin_cube; lra ];
  rewrite ?broadcast_map_combine by assumption;
  np;
  rewrite ?broadcast_map_combine by (rewrite !length_combine; lia);
  np.


(** The vertical force of the double-exponential strategy in the plane. *)
Lemma zforce_de_in_the_plane (self : DoubleExponentialDiskPotential) (R : real) :
  constructed self -> _de self = true -> R <> 0 ->
  _zforce special self (PyFloat (Fin R)) (PyFloat (Fin 0))
  = Ok (NpFloat (Fin 0)).
Proof.
  intros C Hde HR. de_method C Hde.
  rewrite fnansum_zero.
  - rewrite fgtb_irrefl. f64. do 3 f_equal. ring.
  - intros [x w] _. cbn [fst snd].
    apply fmul_zero_or_nan_l, fdiv_zero_or_nan, fmul_zero_or_nan_r.
    cbn [fabs]. apply fsub_exp_zero, Rabs_R0.
Qed.

Lemma Rzderiv_de_in_the_plane (self : DoubleExponentialDiskPotential) (R : real) :
  constructed self -> _de self = true -> R <> 0 ->
  _Rzderiv special self (PyFloat (Fin R)) (PyFloat (Fin 0))
  = Ok (NpFloat (Fin 0)).
Proof.
  intros C Hde HR. de_method C Hde.
  rewrite fnansum_zero.
  - rewrite fgtb_irrefl. f64. do 3 f_equal. ring.
  - intros [x w] _. cbn [fst snd].
    apply fmul_zero_or_nan_l, fdiv_zero_or_nan, fmul_zero_or_nan_r.
    cbn [fabs]. apply fsub_exp_zero, Rabs_R0.
Qed.


(** *** Reflection in the plane *)

(** [z] enters these four methods through [numpy.fabs(z)] only. *)
Ltac mirror Hde :=
  unfold _evaluate, _z2deriv, _dens, _surfdens;
  rewrite ?Hde; np_simpl; cbn [fabs]; rewrite Rabs_Ropp; reflexivity.

Lemma evaluate_de_even (self : DoubleExponentialDiskPotential)
  (R : float64) (z : real) :
  _de self = true ->
  _evaluate special uninitialised self (PyFloat R) (PyFloat (Fin (- z)))
  = _evaluate special uninitialised self (PyFloat R) (PyFloat (Fin z)).
Proof. intros Hde. mirror Hde. Qed.

Lemma z2deriv_de_even (self : DoubleExponentialDiskPotential)
  (R : float64) (z : real) :
  _de self = true ->
  _z2deriv special self (PyFloat R) (PyFloat (Fin (- z)))
  = _z2deriv special self (PyFloat R) (PyFloat (Fin z)).
Proof. intros Hde. mirror Hde. Qed.

Lemma dens_even (self : DoubleExponentialDiskPotential) (R : pyobj) (z : real) :
  _dens self R (PyFloat (Fin (- z))) = _dens self R (PyFloat (Fin z)).
Proof. mirror I. Qed.

Lemma surfdens_even (self : DoubleExponentialDiskPotential)
  (R : pyobj) (z : real) :
  _surfdens self R (PyFloat (Fin (- z))) = _surfdens self R (PyFloat (Fin z)).
Proof. mirror I. Qed.

(** The sign rule [if z > 0.: return out / else: return -out] on top of a
    sum that depends on [numpy.fabs(z)]; in the plane both sides vanish. *)
Ltac flip Hde :=
  unfold _zforce, _Rzderiv; rewrite Hde; np_simpl; cbn [fabs];
  rewrite Rabs_Ropp;
  match goal with
  | |- bind ?X _ = _ => destruct X as [? | ?]; [| reflexivity]
  end;
  np_simpl; unfold fgtb, fltb;
  match goal with
  | |- context [Rlt_dec 0 (- ?z)] =>
      destruct (Rlt_dec 0 (- z)); destruct (Rlt_dec 0 z); try lra; np_simpl
  end;
  [ match goal with
    | |- Ok ?o = _ => symmetry; exact (neg_neg_ (Ok o))
    end
  | reflexivity ].

Lemma zforce_de_odd (self : DoubleExponentialDiskPotential) (R z : real) :
  constructed self -> _de self = true -> R <> 0 ->
  _zforce special self (PyFloat (Fin R)) (PyFloat (Fin (- z)))
  = (- _zforce special self (PyFloat (Fin R)) (PyFloat (Fin z)))%py.
Proof.
  intros C Hde HR.
  destruct (Req_dec_T z 0) as [-> | Hz].
  - replace (- 0) with 0 by ring.
    rewrite zforce_de_in_the_plane by assumption. cbn. do 3 f_equal. ring.
  - flip Hde.
Qed.

Lemma Rzderiv_de_odd (self : DoubleExponentialDiskPotential) (R z : real) :
  constructed self -> _de self = true -> R <> 0 ->
  _Rzderiv special self (PyFloat (Fin R)) (PyFloat (Fin (- z)))
  = (- _Rzderiv special self (PyFloat (Fin R)) (PyFloat (Fin z)))%py.
Proof.
  intros C Hde HR.
  destruct (Req_dec_T z 0) as [-> | Hz].
  - replace (- 0) with 0 by ring.
    rewrite Rzderiv_de_in_the_plane by assumption. cbn. do 3 f_equal. ring.
  - flip Hde.
Qed.

(** C7, amended.  Under [z -> -z], for every [R > 0] and either strategy,
    the fallback potential being symmetric about the plane: the potential,
    the density, the surface density and the second z-derivative are
    unchanged; the vertical force and the mixed second derivative change
    sign.  (The vertical force is odd, not even.) *)
Theorem parity_under_reflection
  (self : DoubleExponentialDiskPotential) (R z : real) :
  constructed self -> symmetric_fallback self -> 0 < R ->
  let Rf := PyFloat (Fin R) in
  let up := PyFloat (Fin z) in
  let down := PyFloat (Fin (- z)) in
  _evaluate special uninitialised self Rf down
  = _evaluate special uninitialised self Rf up
  /\ _dens self Rf down = _dens self Rf up
  /\ _surfdens self Rf down = _surfdens self Rf up
  /\ _z2deriv special self Rf down = _z2deriv special self Rf up
  /\ _zforce special self Rf down = (- _zforce special self Rf up)%py
  /\ _Rzderiv special self Rf down = (- _Rzderiv special self Rf up)%py.
Proof.
  intros C Hkp HR. cbv zeta. destruct (_de self) eqn:Hde; repeat split.
  - now apply evaluate_de_even.
  - apply dens_even.
  - apply surfdens_even.
  - now apply z2deriv_de_even.
  - apply zforce_de_odd; trivial. lra.
  - apply Rzderiv_de_odd; trivial. lra.
  - now apply evaluate_legacy_even.
  - apply dens_even.
  - apply surfdens_even.
  - now apply z2deriv_legacy_even.
  - now apply zforce_legacy_odd.
  - now apply Rzderiv_legacy_odd.
Qed.

(** *** The closed forms *)

Lemma surfdens_value (self : DoubleExponentialDiskPotential) (R z : real) :
  constructed self ->
  _surfdens self (PyFloat (Fin R)) (PyFloat (Fin z))
  = Ok (NpFloat (Fin (2 * exp (- alpha_of self * R) / beta_of self
                      * (1 + - exp (- beta_of self * Rabs z))))).
Proof.
  intros C.
  destruct (constructed_alpha _ C) as [Ha Hapos].
  destruct (constructed_beta _ C) as [Hb Hbpos].
  unfold _surfdens. rewrite Ha, Hb. np. f64. reflexivity.
Qed.

(** C6, amended.  For every [R], the surface density vanishes at [z = 0]
    and tends to [2 hz exp(-R/hr)] as [|z|] tends to infinity: the scale
    height multiplies, it does not divide. *)
Theorem surface_density_in_the_plane_and_far_from_it
  (self : DoubleExponentialDiskPotential) (R : real) :
  constructed self ->
  _surfdens self (PyFloat (Fin R)) (PyFloat (Fin 0)) = Ok (NpFloat (Fin 0))
  /\ tends_to_far_from_the_plane
       (fun z => _surfdens self (PyFloat (Fin R)) (PyFloat (Fin z)))
       (2 * real_of (_hz self) * exp (- R / real_of (_hr self))).
Proof.
  intros C.
  destruct (constructed_scales _ C) as (Ha & Hhr & Hb & Hhz).
  split.
  - rewrite surfdens_value by assumption. do 3 f_equal.
    rewrite Rabs_R0, Rmult_0_r, exp_0. ring.
  - intros eps Heps.
    set (L := 2 * real_of (_hz self) * exp (- R / real_of (_hr self))).
    assert (HL : 0 < L).
    { unfold L. apply Rmult_lt_0_compat; [lra | apply exp_pos]. }
    assert (Hbpos : 0 < beta_of self).
    { rewrite Hb. apply Rdiv_lt_0_compat; lra. }
    destruct (exp_decay (beta_of self) L eps Hbpos HL Heps) as [Z HZ].
    exists Z. intros z Hz. eexists. split.
    + apply surfdens_value, C.
    + specialize (HZ z Hz).
      replace (2 * exp (- alpha_of self * R) / beta_of self) with L.
      * replace (L * (1 + - exp (- beta_of self * Rabs z)) - L)
          with (- (L * exp (- beta_of self * Rabs z))) by ring.
        rewrite Rabs_Ropp, Rabs_pos_eq; [exact HZ |].
        apply Rmult_le_pos; [lra | left; apply exp_pos].
      * unfold L. rewrite Ha, Hb.
        replace (- (1 / real_of (_hr self)) * R)
          with (- R / real_of (_hr self)) by (field; lra).
        field. lra.
Qed.

(** *** No check of the radius *)

Ltac number :=
  match goal with
  | |- context [if fgtb ?a ?b then _ else _] => destruct (fgtb a b)
  | _ => idtac
  end;
  np_simpl; eexists; reflexivity.


(** *** The second radial derivative *)

(** What [_R2deriv] returns at any radius: the NaN-skipping sum runs over
    the differences, so a NaN term takes its finite partner with it. *)
Lemma R2deriv_de_value (self : DoubleExponentialDiskPotential) (R z : real) :
  constructed self -> _de self = true -> 0 < R ->
  _R2deriv special self (PyFloat (Fin R)) (PyFloat (Fin z))
  = Ok (NpFloat (Fin (R2deriv_by_the_code self R z))).
Proof.
  intros C Hde HR. de_method C Hde.
  rewrite (fnansum_fin _
    (fun p : (real * real) * (real * real) =>
       let (xw0, xw1) := p in
       if kernel_is_finite (beta_of self) R (fst xw0)
          && kernel_is_finite (beta_of self) R (fst xw1)
       then snd xw0
            * R2deriv_kernel (alpha_of self) (beta_of self) R z (fst xw0)
            - snd xw1
              * (R2deriv_kernel (alpha_of self) (beta_of self) R z (fst xw1)
                 / fst xw1)
       else 0)).
  - f64. unfold R2deriv_by_the_code. do 3 f_equal. simpl. field. lra.
  - intros [[x0 w0] [x1 w1]] Hin. cbn [fst snd].
    assert (Hx0pos : 0 < x0).
    { apply in_combine_l, in_combine_l in Hin.
      rewrite Forall_forall in Hpos0. now apply Hpos0. }
    assert (Hx1pos : 0 < x1).
    { apply in_combine_r, in_combine_l in Hin.
      rewrite Forall_forall in Hpos1. now apply Hpos1. }
    assert (Hu0 : 0 < x0 / R) by (apply Rdiv_lt_0_compat; lra).
    assert (Hu1 : 0 < x1 / R) by (apply Rdiv_lt_0_compat; lra).
    f64. rewrite !fpow_minus_three_halves by nra. f64.
    unfold kernel_is_finite.
    destruct (Req_dec_T (beta_of self ^ 2 - (x0 / R) ^ 2) 0) as [Hz0 | Hnz0].
    + assert (Hub : x0 / R = beta_of self) by (apply square_roots; lra).
      rewrite (fdiv_0_0 _ (beta_of self * beta_of self
                           + - (x0 / R * (x0 / R))));
        [reflexivity | | lra].
      replace (- x0 / R) with (- beta_of self) by (rewrite <- Hub; field; lra).
      rewrite Hub. ring.
    + rewrite (fdiv_fin _ (beta_of self * beta_of self
                           + - (x0 / R * (x0 / R)))) by lra.
      destruct (Req_dec_T (beta_of self ^ 2 - (x1 / R) ^ 2) 0) as [Hz1 | Hnz1].
      * assert (Hub : x1 / R = beta_of self) by (apply square_roots; lra).
        rewrite fdiv_0_0; [reflexivity | | lra].
        replace (- x1 / R) with (- beta_of self)
          by (rewrite <- Hub; field; lra).
        rewrite Hub. ring.
      * f64. cbn [andb nan_to_zero]. f_equal. unfold R2deriv_kernel.
        replace (- 3 / 2) with (-1.5) by lra.
        replace (- x0 / R) with (- (x0 / R)) by (field; lra).
        replace (- x1 / R) with (- (x1 / R)) by (field; lra).
        replace (alpha_of self ^ 2 + (x0 / R) ^ 2)
          with (alpha_of self * alpha_of self + x0 / R * (x0 / R)) by ring.
        replace (alpha_of self ^ 2 + (x1 / R) ^ 2)
          with (alpha_of self * alpha_of self + x1 / R * (x1 / R)) by ring.
        replace (beta_of self ^ 2 - (x0 / R) ^ 2)
          with (beta_of self * beta_of self + - (x0 / R * (x0 / R))) by ring.
        replace (beta_of self ^ 2 - (x1 / R) ^ 2)
          with (beta_of self * beta_of self + - (x1 / R * (x1 / R))) by ring.
        unfold Rdiv. ring.
Qed.

Lemma R2deriv_code_is_spec_when_regular
  (self : DoubleExponentialDiskPotential) (R z : real) :
  constructed self -> regular_radius self R ->
  R2deriv_by_the_code self R z = R2deriv_by_the_spec self R z.
Proof.
  intros C Hreg.
  destruct (constructed_tables0 _ C) as (_ & _ & Hlen0 & _).
  destruct (constructed_tables1 _ C) as (_ & _ & Hlen1 & _).
  pose proof (constructed_same_length _ C) as Hlen.
  unfold regular_radius in Hreg. rewrite Forall_app, !Forall_forall in Hreg.
  destruct Hreg as [Hreg0 Hreg1].
  unfold R2deriv_by_the_code, R2deriv_by_the_spec, skipping_sum. cbv zeta.
  f_equal. rewrite <- Rsum_paired by (rewrite !length_combine; lia).
  f_equal. apply map_ext_in. intros [[x0 w0] [x1 w1]] Hin. cbn [fst snd].
  rewrite Hreg0, Hreg1; trivial.
  - now apply in_combine_r, in_combine_l in Hin.
  - now apply in_combine_l, in_combine_l in Hin.
Qed.


(** *** The legacy strategy *)

(** C2, at the failing input.  On the reference disk [16 hr = 5.33]; at
    [R = 5.5] the legacy radial force, vertical force, second radial and
    second vertical derivative return what the point-mass fallback returns,
    while the legacy potential and mixed derivative do not consult the
    fallback at all: they return what a model without [_kp] returns. *)
Theorem legacy_potential_and_Rzderiv_ignore_16_hr
  (kp : KeplerPotential) (z : float64) :
  let disk := with_kp (reference_disk false) (Some kp) in
  let orphan := with_kp (reference_disk false) None in
  let R := PyFloat (Fin 5.5) in
  _Rforce special disk R (PyFloat z) = Rforce kp R (PyFloat z)
  /\ _zforce special disk R (PyFloat z) = zforce kp R (PyFloat z)
  /\ _R2deriv special disk R (PyFloat z) = R2deriv kp R (PyFloat z)
  /\ _z2deriv special disk R (PyFloat z) = z2deriv kp R (PyFloat z)
  /\ _evaluate special uninitialised disk R (PyFloat z)
     = _evaluate special uninitialised orphan R (PyFloat z)
  /\ _Rzderiv special disk R (PyFloat z)
     = _Rzderiv special orphan R (PyFloat z).
Proof.
  cbv zeta.
  repeat split;
    unfold _Rforce, _zforce, _R2deriv, _z2deriv, _evaluate, _Rzderiv;
    cbn [_de _hr _kp with_kp reference_disk over_arrays hasattr_kp call_kp
         gt_ bind compare_ lit float_ mul_ lift2 binop total fmul
         map length repeat andb];
    rewrite ?fleb_true by lra;
    rewrite ?fgtb_true by lra;
    rewrite ?fgtb_false by lra;
    reflexivity.
Qed.

(** The legacy potential when [beta] is the first Gauss-Legendre node of the
    one-point rule: the term of that node is [0/0], and [numpy.sum] returns
    NaN. *)
Lemma legacy_potential_on_a_node
  (self : DoubleExponentialDiskPotential) (m a z : real)
  (tail : list real) (dtail : list float64) :
  _de self = false ->
  _glx self = [Fin 0] -> _glw self = [Fin 2] -> _kmaxFac self = Fin 2 ->
  _j0zeros self = Fin 0 :: Fin m :: map Fin tail ->
  _dj0zeros self = Fin 0 :: Fin (m - 0) :: dtail ->
  _alpha self = Fin a -> _beta self = Fin (1 / (2 / m)) ->
  0 < m -> 0 < a ->
  (forall x, finite (jn special 0 (Fin x))) ->
  _evaluate special uninitialised self (PyFloat (Fin 1)) (PyFloat (Fin z))
  = Ok (NpFloat NaN).
Proof.
  intros Hde Hglx Hglw Hk Hj Hdj Ha Hb Hm Hapos Hjn.
  unfold _evaluate, gauss_nodes, gauss_weights, array_flatten.
  rewrite Hde, Hglx, Hglw, Hk, Hj, Hdj, Ha, Hb.
  cbn [bind map length repeat seq].
  rewrite !fleb_true by lra. rewrite !fltb_false by lra.
  cbn [negb count_true filter length Nat.ltb Nat.leb for_ nth bind].
  np.
  change (fmul (fmul (Fin 2) (Fin (1 / (2 / m)))) (Fin 1))
    with (Fin (2 * (1 / (2 / m)) * 1)).
  autorewrite with f64.
  replace ((m + - (2 * (1 / (2 / m)) * 1)) * (m + - (2 * (1 / (2 / m)) * 1)))
    with 0 by (field; lra).
  cbn [is_nan orb].
  rewrite fltb_true
    by (replace (2 * (1 / (2 / m)) * 1) with m by (field; lra); nra).
  rewrite argmin_from_zero by reflexivity.
  np. autorewrite with f64.
  match goal with
  | |- context [jn special 0 (Fin ?x)] =>
      pose proof (Hjn x) as Hfin;
      destruct (jn special 0 (Fin x)) as [j | | |]; try contradiction
  end.
  autorewrite with f64. rewrite fpow_minus_three_halves by nra.
  autorewrite with f64.
  assert (Eb : 1 / (2 / m) = m / 2) by (field; lra).
  assert (Ek : 0.5 * (0 + 1) * (m - 0) + 0 = m / 2) by lra.
  rewrite Eb, Ek.
  rewrite fdiv_0_0.
  - reflexivity.
  - replace (- (m / 2) * Rabs z) with (- (m / 2 * Rabs z)) by ring.
    ring.
  - ring.
Qed.

End Evaluation.

(* ================================================================== *)
(** ** The tables the constructor builds *)

Section Construction.

Variable special : scipy_special.
Variable leggauss : nat -> list float64 * list float64.
Variable Kepler : float64 -> KeplerPotential.


End Construction.


(* ================================================================== *)
(** ** The statements at concrete models *)

(** Evaluation of a method on a concrete model. *)
Ltac run :=
  repeat first
    [ progress cbn -[float_pow float_truediv fpow fdiv fmul fadd fsub fexp
                     fabs fneg fgtb fltb fleb is_zero fnansum fsum nan_to_zero]
    | progress cbn [fmul fadd fsub fneg]
    | rewrite float_pow_2
    | rewrite float_pow_3
    | rewrite fgtb_true by lra
    | rewrite fgtb_false by lra ].



(** *** C7 *)

(** The vertical force of the reference disk at [R = 1], [z = 1]. *)
Lemma reference_zforce :
  exists v, v <> 0 /\
  _zforce asymptotic_special (reference_disk true)
    (PyFloat (Fin 1)) (PyFloat (Fin 1))
  = Ok (NpFloat (Fin v)).
Proof.
  eexists. split; cycle 1.
  - unfold _zforce.
    repeat first
      [ progress cbn -[float_pow float_truediv fpow fdiv fmul fadd fsub fexp
                       fabs fneg fgtb fltb fleb is_zero]
      | rewrite float_pow_2
      | rewrite float_truediv_nonzero by (apply is_zero_fin; lra)
      | rewrite fpow_minus_three_halves by lra
      | progress f64 ].
    rewrite fgtb_true by lra. reflexivity.
  - rewrite Rabs_R1.
    assert (E1 : exp (- (1 / (1 / 16)) * 1) < exp (- (0.00289) / 1 * 1))
      by (apply exp_increasing; lra).
    assert (E2 : exp (- (1 / (1 / 16)) * 1) < exp (- (0.01524) / 1 * 1))
      by (apply exp_increasing; lra).
    pose proof PI_RGT_0 as Hpi.
    match goal with
    | |- _ * (_ + ?a + ?b) <> 0 =>
        assert (Ha : 0 < a); [| assert (Hb : 0 < b)]
    end.
    + apply term_pos; try lra; apply Rpower_pos.
    + apply term_pos; try lra; apply Rpower_pos.
    + apply Rmult_integral_contrapositive_currified; lra.
Qed.

(** C7 as stated fails: the vertical force is not even in [z]. *)
Lemma vertical_force_is_not_even :
  _zforce asymptotic_special (reference_disk true)
    (PyFloat (Fin 1)) (PyFloat (Fin (- (1))))
  <> _zforce asymptotic_special (reference_disk true)
       (PyFloat (Fin 1)) (PyFloat (Fin 1)).
Proof.
  rewrite zforce_de_odd;
    [| apply reference_disk_constructed | reflexivity | lra].
  destruct reference_zforce as (v & Hv & ->). cbn.
  intros H. injection H as H. lra.
Qed.

Lemma parity_under_reflection_witness :
  constructed (reference_disk false) /\ symmetric_fallback (reference_disk false)
  /\ 0 < 1
  /\ _zforce asymptotic_special (reference_disk false)
       (PyFloat (Fin 1)) (PyFloat (Fin (- (1))))
     = (- _zforce asymptotic_special (reference_disk false)
            (PyFloat (Fin 1)) (PyFloat (Fin 1)))%py.
Proof.
  assert (H : 0 < 1) by lra.
  assert (K : symmetric_fallback (reference_disk false))
    by apply point_mass_parity.
  refine (conj (reference_disk_constructed false) (conj K (conj H _))).
  apply (parity_under_reflection asymptotic_special NaN
           (reference_disk false) 1 1);
    [apply reference_disk_constructed | exact K | exact H].
Defined.

(** *** C6 *)

(** C6 as stated fails: on the reference disk ([hz = 1/16]) the surface
    density at [R = 1] does not tend to [2 exp(-R/hr) / hz]. *)
Lemma surface_density_limit_is_not_over_hz :
  ~ tends_to_far_from_the_plane
      (fun z => _surfdens (reference_disk true) (PyFloat (Fin 1))
                  (PyFloat (Fin z)))
      (2 * exp (- 1 / (1 / 3)) / (1 / 16)).
Proof.
  intros H.
  assert (Hpos : 0 < exp (- 1 / (1 / 3))) by apply exp_pos.
  destruct (H (exp (- 1 / (1 / 3))) Hpos) as [Z HZ].
  destruct (HZ (Rabs Z + 1)) as (v & Hv & Hclose).
  { rewrite Rabs_pos_eq by (pose proof (Rabs_pos Z); lra).
    pose proof (Rle_abs Z). lra. }
  rewrite surfdens_value in Hv by apply reference_disk_constructed.
  injection Hv as <-.
  unfold alpha_of, beta_of in Hclose.
  cbn [reference_disk _alpha _beta real_of] in Hclose.
  replace (- (1 / (1 / 3)) * 1) with (- 1 / (1 / 3)) in Hclose by lra.
  set (e := exp (- 1 / (1 / 3))) in *.
  pose proof (exp_pos (- (1 / (1 / 16)) * Rabs (Rabs Z + 1))) as Ht.
  set (t := exp (- (1 / (1 / 16)) * Rabs (Rabs Z + 1))) in *.
  apply Rabs_def2 in Hclose. destruct Hclose as [_ Hlow].
  assert (0 < e * t) by now apply Rmult_lt_0_compat.
  lra.
Qed.

Lemma surface_density_in_the_plane_and_far_from_it_witness :
  constructed (reference_disk true)
  /\ _surfdens (reference_disk true) (PyFloat (Fin 1)) (PyFloat (Fin 0))
     = Ok (NpFloat (Fin 0)).
Proof.
  split; [apply reference_disk_constructed |].
  apply (surface_density_in_the_plane_and_far_from_it (reference_disk true) 1).
  apply reference_disk_constructed.
Defined.

(** *** C4 *)



(** *** C8 *)

Lemma reference_R2deriv_differs :
  R2deriv_by_the_code (reference_disk true) (0.00289 / 16) 0
  <> R2deriv_by_the_spec (reference_disk true) (0.00289 / 16) 0.
Proof.
  unfold R2deriv_by_the_code, R2deriv_by_the_spec, skipping_sum.
  unfold alpha_of, beta_of, nodes0, weights0, nodes1, weights1.
  cbn [reference_disk _alpha _beta _de_j0_xs _de_j0_weights _de_j1_xs
       _de_j1_weights real_of map combine fst snd Rsum fold_right].
  rewrite (kernel_is_finite_false _ _ 0.00289) by lra.
  rewrite !kernel_is_finite_true by lra.
  cbn [andb].
  pose proof (R2deriv_kernel_in_the_plane_nonzero (1 / (1 / 3)) (1 / (1 / 16))
                (0.00289 / 16) 0.00734) as Hk.
  set (k10 := R2deriv_kernel _ _ _ _ 0.00734) in *.
  set (k01 := R2deriv_kernel _ _ _ _ 0.01524).
  set (k11 := R2deriv_kernel _ _ _ _ 0.02461).
  assert (Hk10 : k10 <> 0) by (apply Hk; lra).
  intros H. apply Rmult_eq_reg_l in H.
  - apply Hk10. lra.
  - pose proof PI_RGT_0.
    apply Rmult_integral_contrapositive_currified.
    + lra.
    + apply Rinv_neq_0_compat. lra.
Qed.


Lemma reference_disk_regular_at_1 : regular_radius (reference_disk true) 1.
Proof.
  unfold regular_radius, nodes0, nodes1, beta_of.
  cbn [reference_disk _beta _de_j0_xs _de_j1_xs real_of map app].
  repeat apply Forall_cons; try apply Forall_nil;
    apply kernel_is_finite_true; lra.
Qed.


(** *** C3 *)

(** C3, at a failing input.  With the legacy strategy and [beta] on a
    Gauss-Legendre node, the NaN term is not skipped: the potential is
    NaN. *)
Theorem legacy_sum_propagates_nan (uninitialised : float64) (z : real) :
  _evaluate asymptotic_special uninitialised singular_disk
    (PyFloat (Fin 1)) (PyFloat (Fin z))
  = Ok (NpFloat NaN).
Proof.
  apply (legacy_potential_on_a_node asymptotic_special uninitialised
           singular_disk (mcmahon 0 1) (1 / (1 / 3)) z
           (map (mcmahon 0) (seq 2 99))
           (map (fun k => Fin (mcmahon 0 (S k) - mcmahon 0 k)) (seq 1 99)));
    try reflexivity;
    first [ apply mcmahon_pos; lia | lra | intros x; exact I ].
Qed.

(** *** C9 *)

(** C9, at a failing input.  With an array of three radii, the five
    double-exponential methods other than the potential raise [ValueError]
    (the two-node table does not broadcast against three radii), where their
    legacy branches, and the double-exponential potential, return an array
    of three values. *)
Theorem de_force_methods_reject_an_array_of_radii :
  let R := NdArray [Fin 7; Fin 8; Fin 9] in
  let z := PyFloat (Fin 0) in
  Forall (fun method => method (reference_disk true) R z = Raise ValueError)
         (methods_dividing_by_R asymptotic_special)
  /\ Forall (fun method =>
               exists l, method (reference_disk false) R z = Ok (NdArray l)
                         /\ length l = 3%nat)
            (methods_dividing_by_R asymptotic_special)
  /\ exists l, _evaluate asymptotic_special NaN (reference_disk true) R z
               = Ok (NdArray l) /\ length l = 3%nat.
Proof.
  cbv zeta. unfold methods_dividing_by_R. repeat split.
  - repeat apply Forall_cons; try apply Forall_nil;
      unfold _Rforce, _zforce, _R2deriv, _z2deriv, _Rzderiv; run; reflexivity.
  - repeat apply Forall_cons; try apply Forall_nil;
      unfold _Rforce, _zforce, _R2deriv, _z2deriv, _Rzderiv; run;
      eexists; split; reflexivity.
  - unfold _evaluate. run. eexists; split; reflexivity.
Qed.

(** *** The double-exponential tables *)



(** Two terms of Machin's series. *)
Lemma PI_brackets : 3.13 < PI < 3.15.
Proof.
  destruct (PI_2_3_7_ineq 1) as [Hlo Hhi].
  unfold sum_f_R0, tg_alt, PI_2_3_7_tg, Ratan_seq in Hlo, Hhi.
  simpl in Hlo, Hhi.
  split; lra.
Qed.

(** With the default step, a zero between 77 and 78.5 (the 25th zero of
    [J_0] is 77.756) gives a node between 2.7 and 3.4. *)
Lemma default_node_bounds (j : R) :
  77 <= j <= 78.5 ->
  exists x, de_node default_de_h (Fin j) = Fin x /\ 2.7 <= x <= 3.4.
Proof.
  intros [Hlo Hhi]. destruct PI_brackets as [Hpi1 Hpi2].
  unfold default_de_h. rewrite de_node_fin by lra.
  eexists. split; [reflexivity |].
  replace 0.001 with (1 / 1000) by lra.
  set (t := 1 / 1000 * (j / PI)).
  assert (Et : PI / 2 * t = j / 2000).
  { unfold t. field. lra. }
  assert (Ht : 0 < t <= 0.026).
  { assert (Hq : t = j / 2000 * (2 / PI)) by (rewrite <- Et; field; lra).
    assert (H2 : 0 < 2 / PI < 0.64).
    { split; [apply Rdiv_lt_0_compat; lra |].
      apply (Rmult_lt_reg_r PI); [lra |].
      replace (2 / PI * PI) with 2 by (field; lra). lra. }
    rewrite Hq. split; nra. }
  destruct (sinh_brackets t) as [S1 S2]; [lra |].
  set (s := sinh t) in *.
  set (u := PI / 2 * s).
  assert (Hu : 0.0374 <= u <= 0.0404).
  { unfold u. split; nra. }
  destruct (tanh_brackets u) as [T1 T2]; [lra |].
  set (T := tanh u) in *.
  assert (HT : 0.036 <= T <= 0.0422) by (split; nra).
  assert (Ex : PI / (1 / 1000) * (t * T) = j * T).
  { unfold t. field. lra. }
  rewrite Ex. split; nra.
Qed.

Lemma sgn_negative (w : R) : sgn w = Lt -> w < 0.
Proof.
  unfold sgn. destruct (total_order_T w 0) as [[Hlt | Heq] | Hgt];
    trivial; discriminate.
Qed.

(** Whatever computes the Bessel functions: the default order-0 weight of
    a tabulated zero between 77 and 78.5 is negative if [J_0] is negative
    between 2.7 and 3.4.  (For the functions of [scipy.special] the zero of
    index 24 is 77.756, and [J_0] is negative from 2.405 to 5.520.) *)
Lemma weight_is_negative_where_J0_is (special : scipy_special)
  (n : nat) (j : R) :
  bessel_contract special ->
  In (Fin j) (jn_zeros special 0 n) ->
  77 <= j <= 78.5 ->
  (forall x, 2.7 <= x <= 3.4 -> exists v, j0 special (Fin x) = Fin v /\ v < 0) ->
  exists w,
    de_weight (j1 special) (j0 special) default_de_h (Fin j) = Fin w /\ w < 0.
Proof.
  intros C Hin Hj Hneg.
  destruct (default_node_bounds j Hj) as [x [Ex Hx]].
  destruct (Hneg x Hx) as [v [Ev Hv]].
  assert (Hs := de_weight_sign (j1 special) (j0 special) 0.001 j
                  ltac:(lra) ltac:(lra) (j1_finite _ C j)
                  (j1_at_zeros_of_j0 _ C n j Hin) (j0_finite _ C)).
  fold default_de_h in Hs. rewrite Ex, Ev in Hs.
  destruct (de_weight (j1 special) (j0 special) default_de_h (Fin j))
    as [w | | |]; try contradiction.
  exists w. split; [reflexivity |].
  cbn in Hs. apply sgn_negative. rewrite Hs. now apply sgn_neg.
Qed.

Lemma hankel_0_negative (x : R) :
  3 / 4 * PI < x < 7 / 4 * PI ->
  exists j, hankel 0 (Fin x) = Fin j /\ j < 0.
Proof.
  intros [Hlo Hhi]. assert (Hpi := PI_RGT_0).
  eexists. split; [reflexivity |].
  assert (Hs : 0 < sqrt (2 / (PI * x))).
  { apply sqrt_lt_R0, Rdiv_lt_0_compat; [lra | nra]. }
  assert (Hc : cos (x - INR 0 * PI / 2 - PI / 4) < 0).
  { apply cos_lt_0; simpl INR; lra. }
  nra.
Qed.

Lemma nth_error_seq_lt (n s i : nat) :
  (i < n)%nat -> nth_error (seq s n) i = Some (s + i)%nat.
Proof.
  revert s i. induction n as [| n IH]; intros s i Hi; [lia |].
  destruct i as [| i]; cbn; [f_equal; lia |].
  rewrite IH by lia. f_equal. lia.
Qed.


(* ================================================================== *)
(** ** The helpers of the double-exponential formula *)

Lemma de_psi_value (t : R) :
  _de_psi (Ok (PyFloat (Fin t))) = Ok (NpFloat (Fin (de_psi_at t))).
Proof.
  assert (Hpi := PI_RGT_0). unfold _de_psi. np_simpl.
  rewrite float_truediv_nonzero by (apply is_zero_fin; lra).
  rewrite fdiv_fin by lra. reflexivity.
Qed.

Lemma de_psiprime_value (t : R) :
  _de_psiprime (Ok (PyFloat (Fin t)))
  = Ok (NpFloat (Fin (de_psiprime_at t))).
Proof.
  unfold _de_psiprime. np_simpl. cbn [fmul fsinh fcosh fadd].
  rewrite fdiv_fin; [reflexivity |].
  generalize (cosh_pos (PI * sinh t)). lra.
Qed.

Lemma cosh_sinh_squares (a : R) : cosh a * cosh a - sinh a * sinh a = 1.
Proof. unfold cosh, sinh. assert (E := exp_opp_inverse a). nra. Qed.

Lemma sinh_double (a : R) : sinh (2 * a) = 2 * sinh a * cosh a.
Proof.
  unfold sinh, cosh.
  replace (2 * a) with (a + a) by ring.
  replace (- (a + a)) with (- a + - a) by ring.
  rewrite !exp_plus. field.
Qed.

Lemma cosh_double (a : R) : cosh (2 * a) + 1 = 2 * cosh a * cosh a.
Proof.
  unfold cosh.
  replace (2 * a) with (a + a) by ring.
  replace (- (a + a)) with (- a + - a) by ring.
  rewrite !exp_plus. assert (E := exp_opp_inverse a). nra.
Qed.

Lemma derivable_pt_lim_tanh (a : R) :
  derivable_pt_lim tanh a (1 / (cosh a * cosh a)).
Proof.
  assert (Hc := cosh_pos a).
  apply (derivable_pt_lim_ext (sinh / cosh)%F); [reflexivity |].
  replace (1 / (cosh a * cosh a))
    with ((cosh a * cosh a - sinh a * sinh a) / (cosh a)²).
  - apply derivable_pt_lim_div;
      [apply derivable_pt_lim_sinh | apply derivable_pt_lim_cosh | lra].
  - rewrite cosh_sinh_squares. reflexivity.
Qed.


(* ================================================================== *)
(** ** The constructor *)

Lemma combine_firstn_r {A B : Type} (l : list A) (m : list B) :
  combine l (firstn (length l) m) = combine l m.
Proof.
  revert m. induction l as [| a l IH]; intros [| b m]; cbn; trivial.
  now rewrite IH.
Qed.

(** [d = j - numpy.roll(j,1); d[0] = j[0]]: the first entry is kept and
    every other entry is the gap to its predecessor. *)
Lemma differences_value (x : float64) (l : list float64) :
  differences (x :: l) = Ok (x :: zipWith fsub l (x :: l)).
Proof.
  unfold differences. cbn -[broadcast roll1].
  rewrite broadcast_same_length by (now rewrite length_roll1).
  cbn -[roll1 zipWith]. unfold roll1.
  destruct (rev (x :: l)) as [| y r] eqn:E.
  { apply (f_equal (@length _)) in E. rewrite length_rev in E. discriminate. }
  unfold zipWith. cbn -[removelast]. do 2 f_equal.
  rewrite removelast_firstn_len. cbn [length pred].
  now rewrite combine_firstn_r.
Qed.

(** The attributes [__init__] sets, read off its body. *)
Lemma init_fields special leggauss Kepler
  (hr hz : R) kmaxFac glorder de (h : R) de_n :
  bessel_contract special -> 0 < hr -> 0 < hz -> 0 < h ->
  exists self,
    __init__ special leggauss Kepler (Fin hr) (Fin hz) kmaxFac glorder de
      (Fin h) de_n = Ok self
    /\ (_alpha self = Fin (1 / hr) /\ _beta self = Fin (1 / hz)
        /\ _gamma self = Fin (hz / hr) /\ _scale self = Fin hr
        /\ _kp self = Some (Kepler (Fin (4 * PI * hr * hr * hz))))
    /\ (_kmaxFac self = kmaxFac /\ _nzeros self = 100%nat
        /\ (_glx self, _glw self) = leggauss glorder)
    /\ (_j0zeros self = Fin 0 :: jn_zeros special 0 100
        /\ _j1zeros self = Fin 0 :: jn_zeros special 1 100
        /\ _j2zeros self = Fin 0 :: jn_zeros special 2 100)
    /\ (_dj0zeros self
        = Fin 0 :: zipWith fsub (jn_zeros special 0 100)
                     (Fin 0 :: jn_zeros special 0 100)
        /\ _dj1zeros self
           = Fin 0 :: zipWith fsub (jn_zeros special 1 100)
                        (Fin 0 :: jn_zeros special 1 100)
        /\ _dj2zeros self
           = Fin 0 :: zipWith fsub (jn_zeros special 2 100)
                        (Fin 0 :: jn_zeros special 2 100)).
Proof.
  intros C Hr Hz Hh.
  unfold __init__.
  destruct (leggauss glorder) as [glx glw].
  cbv zeta.
  rewrite !(zeros_then_total _ _ _ C).
  cbn [bind]. rewrite !differences_value. cbn [bind].
  assert (P0 := jn_zeros_positive _ C 0%nat de_n).
  assert (P1 := jn_zeros_positive _ C 1%nat de_n).
  destruct (positive_list _ P0) as [z0 [E0 Q0]].
  destruct (positive_list _ P1) as [z1 [E1 Q1]].
  rewrite E0, E1.
  assert (Hpi := PI_RGT_0).
  assert (Ha : 0 < 1 / hr) by (apply Rdiv_lt_0_compat; lra).
  assert (Hb : 0 < 1 / hz) by (apply Rdiv_lt_0_compat; lra).
  assert (Ha2 : 1 / hr * (1 / hr) <> 0) by nra.
  unfold _de_psiprime, _de_psi.
  repeat (progress (rewrite ?fpow_2; autorewrite with f64;
                    rewrite ?float_truediv_nonzero by (apply is_zero_fin; lra);
                    rewrite ?fdiv_fin by lra; np)).
  eexists. split; [reflexivity |]. np_simpl.
  repeat split; try reflexivity.
  - f_equal. field. lra.
  - autorewrite with f64. rewrite ?fdiv_fin by first [assumption | lra].
    do 3 f_equal. field. lra.
Qed.

Lemma length_zipWith f (a b : list float64) :
  length (zipWith f a b) = Nat.min (length a) (length b).
Proof. unfold zipWith. now rewrite length_map, length_combine. Qed.

Lemma nth_zipWith f (a b : list float64) (i : nat) :
  (i < length a)%nat -> (i < length b)%nat ->
  nth i (zipWith f a b) NaN = f (nth i a NaN) (nth i b NaN).
Proof.
  revert b i. induction a as [| x a IH]; intros [| y b] [| i] Ha Hb;
    cbn in *; try lia; trivial.
  apply IH; lia.
Qed.

Lemma gaps_of_differences (x : float64) (l : list float64) :
  gaps_of (x :: l) (x :: zipWith fsub l (x :: l)).
Proof.
  repeat split.
  - cbn. rewrite length_zipWith. cbn. f_equal. lia.
  - intros i Hi. cbn [length] in Hi.
    change (nth (S i) (x :: zipWith fsub l (x :: l)) NaN)
      with (nth i (zipWith fsub l (x :: l)) NaN).
    rewrite nth_zipWith by (cbn [length]; lia). reflexivity.
Qed.

(** Division of two builtin floats. *)
Lemma builtin_quotient (a b : float64) :
  as_float (Ok (PyFloat a) / Ok (PyFloat b))%py
  = if is_zero b then Raise ZeroDivisionError else Ok (fdiv a b).
Proof.
  cbn -[float_truediv]. unfold float_truediv. now destruct (is_zero b).
Qed.

Section Constructor.

Variable special : scipy_special.
Variable leggauss : nat -> list float64 * list float64.
Variable Kepler : float64 -> KeplerPotential.



(** X3.  A scale length of zero makes the constructor raise
    [ZeroDivisionError] ([1./self._hr], [1./self._hz]), whatever the other
    arguments. *)
Theorem constructor_rejects_a_zero_scale
  (hr hz kmaxFac : float64) (glorder : nat) (de : bool)
  (de_h : float64) (de_n : nat) :
  is_zero hr = true \/ is_zero hz = true ->
  __init__ special leggauss Kepler hr hz kmaxFac glorder de de_h de_n
  = Raise ZeroDivisionError.
Proof.
  intros H. unfold __init__, lit, float_. rewrite !builtin_quotient.
  destruct (is_zero hr) eqn:Er; [reflexivity |].
  destruct H as [H | H]; [discriminate |]. cbn [bind]. now rewrite H.
Qed.


End Constructor.

(* ================================================================== *)
(** ** The legacy quadrature *)

Lemma mapM_ok {A B : Type} (f : A -> result B) (g : A -> B) (l : list A) :
  (forall a, In a l -> f a = Ok (g a)) -> mapM f l = Ok (map g l).
Proof.
  induction l as [| a l IH]; intros H; cbn; trivial.
  rewrite (H a) by now left. cbn.
  rewrite IH by (intros b Hb; apply H; now right). reflexivity.
Qed.

Lemma getitem_nth (l : list float64) (i : nat) :
  (i < length l)%nat -> getitem l i = Ok (NpFloat (nth i l NaN)).
Proof.
  intros H. unfold getitem.
  rewrite (nth_error_nth' l NaN H). reflexivity.
Qed.

Lemma gauss_nodes_value (self : DoubleExponentialDiskPotential)
  (j dj : list float64) (n : nat) :
  (n < length j)%nat -> length dj = length j ->
  gauss_nodes self j dj n = Ok (NdArray (interval_nodes (_glx self) j dj n)).
Proof.
  intros Hn Hlen. unfold gauss_nodes, array_flatten, interval_nodes.
  rewrite (mapM_ok _
    (fun ii => map (fun g => fadd (fmul (fmul (Fin 0.5) (fadd g (Fin 1)))
                                     (nth (ii + 1) dj NaN))
                               (nth ii j NaN)) (_glx self))).
  - reflexivity.
  - intros ii Hii. apply in_seq in Hii.
    rewrite !getitem_nth by lia. np. reflexivity.
Qed.

Lemma gauss_weights_value (self : DoubleExponentialDiskPotential)
  (dj : list float64) (n : nat) :
  (n < length dj)%nat ->
  gauss_weights self dj n = Ok (NdArray (interval_weights (_glw self) dj n)).
Proof.
  intros Hn. unfold gauss_weights, array_flatten, interval_weights.
  rewrite (mapM_ok _
    (fun ii => map (fun w => fmul w (nth (ii + 1) dj NaN)) (_glw self))).
  - reflexivity.
  - intros ii Hii. apply in_seq in Hii.
    rewrite !getitem_nth by lia. np. reflexivity.
Qed.

Lemma length_concat_rows {A B : Type} (row : nat -> A -> B) (g : list A)
  (l : list nat) :
  length (concat (map (fun ii => map (row ii) g) l))
  = (length l * length g)%nat.
Proof.
  induction l as [| ii l IH]; cbn; trivial.
  now rewrite length_app, length_map, IH.
Qed.

Lemma length_interval_nodes glx j dj n :
  length (interval_nodes glx j dj n) = (n * length glx)%nat.
Proof.
  unfold interval_nodes.
  now rewrite (length_concat_rows
                 (fun ii g => fadd (fmul (fmul (Fin 0.5) (fadd g (Fin 1)))
                                      (nth (ii + 1) dj NaN)) (nth ii j NaN))),
    length_seq.
Qed.

Lemma length_interval_weights glw dj n :
  length (interval_weights glw dj n) = (n * length glw)%nat.
Proof.
  unfold interval_weights.
  now rewrite (length_concat_rows
                 (fun ii w => fmul w (nth (ii + 1) dj NaN))), length_seq.
Qed.

Lemma argmin_from_bound (l : list float64) (i best : nat) (v : float64) :
  (best < i)%nat -> (argmin_from l i best v < i + length l)%nat.
Proof.
  revert i best v. induction l as [| x l IH]; intros i best v H; cbn.
  - lia.
  - destruct (is_nan v); [lia |].
    destruct (is_nan x || fltb x v).
    + specialize (IH (S i) i x). lia.
    + specialize (IH (S i) best v). lia.
Qed.

Lemma numpy_argmin_array (l : list float64) :
  l <> [] ->
  exists idx, numpy_argmin (Ok (NdArray l)) = Ok idx /\ (idx < length l)%nat.
Proof.
  intros H. destruct l as [| x l]; [contradiction |].
  eexists. split; [reflexivity |].
  generalize (argmin_from_bound l 1 0 x). cbn. lia.
Qed.

Lemma broadcast_list_map h (f : float64 -> float64) (l : list float64) :
  broadcast h l (map f l) = Ok (map (fun x => h x (f x)) l).
Proof.
  rewrite <- (map_id l) at 1. now rewrite broadcast_map_map.
Qed.

Ltac legacy_simpl :=
  cbn -[float_pow float_truediv fpow fdiv fmul fadd fsub fexp fabs fneg
        broadcast fnansum fsum fgtb fltb fleb is_zero nan_to_zero
        numpy_argmin gauss_nodes gauss_weights].

Section LegacyQuadrature.

Variable special : scipy_special.
Variable uninitialised : float64.
Variable self : DoubleExponentialDiskPotential.
Hypothesis C : constructed self.
Hypothesis T : legacy_tables self.
Hypothesis Hde : _de self = false.

(** Runs the quadrature branch of a legacy method at a scalar query: the
    cutoff index is inside the table, so the nodes and weights are read
    within bounds and have one common length. *)
Ltac cutoff_index :=
  match goal with
  | |- context [numpy_argmin (Ok (NdArray (map ?f (map ?g ?j))))] =>
      let idx := fresh "idx" in
      let Hidx := fresh "Hidx" in
      destruct (numpy_argmin_array (map f (map g j))) as [idx [-> Hidx]];
      [ destruct j; [contradiction | discriminate]
      | rewrite !length_map in Hidx; legacy_simpl ]
  end.

Ltac tables :=
  rewrite ?gauss_nodes_value, ?gauss_weights_value by lia; legacy_simpl.

Ltac same_length idx j dj :=
  let H := fresh "Hlen" in
  assert (H : length (interval_weights (_glw self) dj idx)
              = length (interval_nodes (_glx self) j dj idx))
    by (rewrite length_interval_weights, length_interval_nodes; lia);
  let ks := fresh "ks" in let ws := fresh "ws" in
  set (ks := interval_nodes (_glx self) j dj idx) in *;
  set (ws := interval_weights (_glw self) dj idx) in *.

Ltac integrand :=
  np; rewrite ?broadcast_list_map; np;
  rewrite ?broadcast_same_length by (now rewrite length_map);
  legacy_simpl.

Ltac near_field H6 H16 :=
  let Hhr := fresh "Hhr" in
  let hr := fresh "hr" in
  assert (Hhr := finite_is_fin _ (positive_finite _ (hr_positive _ C)));
  set (hr := real_of (_hr self)) in *;
  unfold _Rforce, _zforce, _R2deriv, _z2deriv, _Rzderiv, over_arrays;
  rewrite Hde; cbv beta iota zeta;
  rewrite ?Hhr; legacy_simpl; autorewrite with f64;
  rewrite ?(fgtb_false _ (16 * hr)) by lra;
  rewrite ?(fgtb_false _ 6) by lra;
  legacy_simpl;
  match goal with
  | |- context [fltb (Fin ?R) (Fin 1)] => destruct (fltb (Fin R) (Fin 1))
  end;
  legacy_simpl.

Lemma Rforce_legacy_returns (R z : real) :
  R <= 6 -> R <= 16 * real_of (_hr self) ->
  returns_a_number (_Rforce special self (PyFloat (Fin R)) (PyFloat (Fin z))).
Proof.
  intros H6 H16.
  destruct T as [Hgl [[N0 L0] [[N1 L1] [N2 L2]]]].
  near_field H6 H16; cutoff_index; tables;
    same_length idx (_j1zeros self) (_dj1zeros self);
    integrand; eexists; reflexivity.
Qed.

Lemma z2deriv_legacy_returns (R z : real) :
  R <= 6 -> R <= 16 * real_of (_hr self) ->
  returns_a_number (_z2deriv special self (PyFloat (Fin R)) (PyFloat (Fin z))).
Proof.
  intros H6 H16.
  destruct T as [Hgl [[N0 L0] [[N1 L1] [N2 L2]]]].
  near_field H6 H16; cutoff_index; tables;
    same_length idx (_j0zeros self) (_dj0zeros self);
    integrand; eexists; reflexivity.
Qed.

Lemma zforce_legacy_returns (R z : real) :
  R <= 6 -> R <= 16 * real_of (_hr self) ->
  returns_a_number (_zforce special self (PyFloat (Fin R)) (PyFloat (Fin z))).
Proof.
  intros H6 H16.
  destruct T as [Hgl [[N0 L0] [[N1 L1] [N2 L2]]]].
  near_field H6 H16; cutoff_index; tables;
    same_length idx (_j0zeros self) (_dj0zeros self);
    integrand; destruct (fgtb (Fin z) (Fin 0)); integrand;
    eexists; reflexivity.
Qed.

Lemma Rzderiv_legacy_returns (R z : real) :
  R <= 6 ->
  returns_a_number (_Rzderiv special self (PyFloat (Fin R)) (PyFloat (Fin z))).
Proof.
  intros H6. assert (H16 : True) by exact I.
  destruct T as [Hgl [[N0 L0] [[N1 L1] [N2 L2]]]].
  near_field H6 H16; cutoff_index; tables;
    same_length idx (_j1zeros self) (_dj1zeros self);
    integrand; destruct (fleb (Fin 0) (Fin z)); integrand;
    eexists; reflexivity.
Qed.

Lemma R2deriv_legacy_returns (R z : real) :
  R <= 6 -> R <= 16 * real_of (_hr self) ->
  returns_a_number (_R2deriv special self (PyFloat (Fin R)) (PyFloat (Fin z))).
Proof.
  intros H6 H16.
  destruct T as [Hgl [[N0 L0] [[N1 L1] [N2 L2]]]].
  near_field H6 H16; cutoff_index; cutoff_index; tables;
    same_length idx (_j0zeros self) (_dj0zeros self);
    same_length idx0 (_j2zeros self) (_dj2zeros self);
    integrand; eexists; reflexivity.
Qed.

Lemma evaluate_legacy_returns (R z : real) :
  R <= 6 ->
  returns_a_number
    (_evaluate special uninitialised self (PyFloat (Fin R)) (PyFloat (Fin z))).
Proof.
  intros H6.
  destruct T as [Hgl [[N0 L0] [[N1 L1] [N2 L2]]]].
  unfold _evaluate. rewrite Hde. legacy_simpl.
  rewrite (fleb_true R 6) by lra. legacy_simpl.
  destruct (fltb (Fin R) (Fin 1)); legacy_simpl.
  all: cutoff_index; tables;
    same_length idx (_j0zeros self) (_dj0zeros self);
    integrand; eexists; reflexivity.
Qed.

End LegacyQuadrature.

Lemma legacy_tables_of_fields (self : DoubleExponentialDiskPotential)
  (z0 z1 z2 : list float64) :
  length (_glx self) = length (_glw self) ->
  _j0zeros self = Fin 0 :: z0 -> _j1zeros self = Fin 0 :: z1 ->
  _j2zeros self = Fin 0 :: z2 ->
  _dj0zeros self = Fin 0 :: zipWith fsub z0 (Fin 0 :: z0) ->
  _dj1zeros self = Fin 0 :: zipWith fsub z1 (Fin 0 :: z1) ->
  _dj2zeros self = Fin 0 :: zipWith fsub z2 (Fin 0 :: z2) ->
  legacy_tables self.
Proof.
  intros Hgl J0 J1 J2 D0 D1 D2. unfold legacy_tables.
  rewrite J0, J1, J2, D0, D1, D2. split; [exact Hgl |].
  repeat split; try discriminate;
    cbn [length]; rewrite length_zipWith; cbn [length]; f_equal; lia.
Qed.

Section LegacyModel.

Variable special : scipy_special.
Variable leggauss : nat -> list float64 * list float64.
Variable Kepler : float64 -> KeplerPotential.
Variable uninitialised : float64.


End LegacyModel.

(* ================================================================== *)
(** ** The further statements at concrete models *)



Lemma is_zero_zero : is_zero (Fin 0) = true.
Proof. unfold is_zero. destruct (Req_dec_T 0 0); [reflexivity | lra]. Qed.

Lemma constructor_rejects_a_zero_scale_witness :
  (is_zero (Fin 0) = true \/ is_zero (Fin (1 / 16)) = true)
  /\ __init__ asymptotic_special one_point_rule point_mass
       (Fin 0) (Fin (1 / 16)) (Fin 2) 1 true (Fin 0.001) 2
     = Raise ZeroDivisionError.
Proof.
  assert (H : is_zero (Fin 0) = true \/ is_zero (Fin (1 / 16)) = true)
    by (left; exact is_zero_zero).
  refine (conj H _).
  exact (constructor_rejects_a_zero_scale asymptotic_special one_point_rule
           point_mass (Fin 0) (Fin (1 / 16)) (Fin 2) 1 true (Fin 0.001) 2 H).
Defined.


